(** * cxxnet evaluation metrics (src/cxxnet/utils/cxxnet_metric.h)

    A shallow embedding of the metric accumulators [MetricRMSE],
    [MetricCorrSqr], [MetricError] and of the container [MetricSet],
    followed by the properties of the specification that concern them.

    Numbers are modelled as the code has them: C [float] is IEEE-754
    binary32, C [double] is binary64 (both on [spec_float], the executable
    IEEE specification of the standard library, rounding to nearest even),
    [long] is a 64-bit two's complement integer and [int] a 32-bit one. *)

From Stdlib Require Import ZArith List String Ascii Bool Lia.
From Stdlib Require Import Sorting.Sorted Sorting.Permutation.
From Stdlib Require Import Floats.SpecFloat.
Import ListNotations.

Local Open Scope Z_scope.

(** ** Machine arithmetic *)

Module C.

(** C [float]: binary32, 24 bits of mantissa, infinities at exponent 128. *)
Definition float := spec_float.
(** C [double]: binary64, 53 bits of mantissa, infinities at exponent 1024. *)
Definition double := spec_float.

Definition fsub : float -> float -> float := SFsub 24 128.
Definition fmul : float -> float -> float := SFmul 24 128.
(** [a > b] on floats; false as soon as one side is a NaN. *)
Definition fgt (a b : float) : bool := SFltb b a.

Definition dadd : double -> double -> double := SFadd 53 1024.
Definition dsub : double -> double -> double := SFsub 53 1024.
Definition dmul : double -> double -> double := SFmul 53 1024.
Definition ddiv : double -> double -> double := SFdiv 53 1024.
Definition dsqrt : double -> double := SFsqrt 53 1024.

(** The literals [0.0] (double) and [0.5f] (float, 2^23 * 2^-24). *)
Definition dzero : double := S754_zero false.
Definition fhalf : float := S754_finite false 8388608 (-24).

(** Implicit conversion [float -> double]: exact, the mantissa is only
    re-aligned to 53 bits. *)
Definition float_to_double (x : float) : double :=
  match x with
  | S754_finite s m e => binary_round 53 1024 s m e
  | _ => x
  end.

(** Implicit conversion of an integer ([long], [int], [bool]) to double. *)
Definition int_to_double (n : Z) : double := binary_normalize 53 1024 n 0 false.

Definition INT_MIN : Z := - 2 ^ 31.
Definition INT_MAX : Z := 2 ^ 31 - 1.
Definition LONG_MAX : Z := 2 ^ 63 - 1.

(** Two's complement wrap-around of [int] and [long]. *)
Definition wrap_int (z : Z) : Z := (z + 2 ^ 31) mod 2 ^ 32 - 2 ^ 31.
Definition wrap_long (z : Z) : Z := (z + 2 ^ 63) mod 2 ^ 64 - 2 ^ 63.

(** The cast [(int)x] of a float: truncation toward zero; a NaN, an
    infinity or a value outside [int] gives the x86-64 "integer
    indefinite" value [INT_MIN] (cvttss2si). *)
Definition float_to_int (x : float) : Z :=
  match x with
  | S754_zero _ => 0
  | S754_finite s m e =>
      let mag := match e with
                 | Zneg p => Z.pos m / 2 ^ Z.pos p
                 | _ => Z.pos m * 2 ^ e
                 end in
      let t := cond_Zopp s mag in
      if (INT_MIN <=? t) && (t <=? INT_MAX) then t else INT_MIN
  | _ => INT_MIN
  end.

(** A value that is a NaN or an infinity. *)
Definition nonfinite (x : spec_float) : bool :=
  match x with
  | S754_nan | S754_infinity _ => true
  | _ => false
  end.

Definition is_nan (x : spec_float) : bool :=
  match x with S754_nan => true | _ => false end.

(** Nearest binary32 value of the integer ratio [n / d], to write
    decimal literals such as [0.9f] in examples. *)
Definition fratio (n d : Z) : float :=
  SFdiv 24 128 (binary_normalize 24 128 n 0 false) (binary_normalize 24 128 d 0 false).

End C.
Import C.

(** ** Tensors

    [index_t] is an unsigned 32-bit integer; the loops count upward below
    a shape bound and never wrap, so shapes and indices are natural
    numbers. *)

(** Modelled from the spec: mshadow's [Tensor<cpu,1>] is not part of the
    sources; it is the vector of the [num_outputs] scores of one
    instance, read through its data pointer, here a total function. *)
Record Tensor1 := mkTensor1 {
  shape1_0 : nat;
  dptr1 : nat -> float
}.

(** Modelled from the spec: mshadow's [Tensor<cpu,2>] is not part of the
    sources; the specification describes the score buffer as a grid of
    logical shape [[num_outputs, num_instances]] in which [score[i]] is
    the vector of the scores of instance [i].  [shape[0]] is the output
    axis and [shape[1]] the instance axis. *)
Record Tensor2 := mkTensor2 {
  shape0 : nat;
  shape1 : nat;
  dptr2 : nat -> nat -> float
}.

(** [t[i]]: the score vector of instance [i]. *)
Definition row (t : Tensor2) (i : nat) : Tensor1 :=
  mkTensor1 (shape0 t) (dptr2 t i).

(** [const float *labels]. *)
Definition Labels := nat -> float.

(** ** Failing computations over a metric state

    A member function that can stop at an assertion returns its outcome
    together with the state the object is left in. *)

Inductive outcome (A : Type) : Type :=
| Done (a : A)
| Abort (msg : string).
Arguments Done {A} a.
Arguments Abort {A} msg.

Definition M (St A : Type) : Type := St -> outcome A * St.

Definition ret {St A} (a : A) : M St A := fun s => (Done a, s).

Definition bind {St A B} (c : M St A) (k : A -> M St B) : M St B :=
  fun s => match c s with
           | (Done a, s') => k a s'
           | (Abort msg, s') => (Abort msg, s')
           end.

Definition modify {St} (f : St -> St) : M St unit := fun s => (Done tt, f s).

(** Modelled from the spec: [utils::Assert] is declared outside the
    sources; by the specification a violated precondition is signalled
    with its diagnostic (fail fast) and the data is not processed. *)
Definition Assert {St} (exp : bool) (msg : string) : M St unit :=
  fun s => if exp then (Done tt, s) else (Abort msg, s).

Notation "c1 ;; c2" := (bind c1 (fun _ => c2))
  (at level 61, right associativity).

(** [for (index_t i = start; i < start + n; ++i) body(i)]. *)
Fixpoint for_range {St} (start n : nat) (body : nat -> St -> St) (s : St) : St :=
  match n with
  | O => s
  | S n' => for_range (S start) n' body (body start s)
  end.

(** ** RMSE *)

Module MetricRMSE.

Record t := mk { sum_err : double; cnt_inst : Z }.

Definition Clear (_ : t) : t := mk dzero 0.

(** The constructor calls [Clear]. *)
Definition new : t := mk dzero 0.

Definition body (predscore : Tensor2) (labels : Labels) (i : nat) (st : t) : t :=
  let diff := fsub (dptr1 (row predscore i) 0%nat) (labels i) in
  mk (dadd (sum_err st) (float_to_double (fmul diff diff)))
     (wrap_long (cnt_inst st + 1)).

Definition AddEval (predscore : Tensor2) (labels : Labels) : M t unit :=
  Assert (Nat.eqb (shape0 predscore) 1) "RMSE can only accept shape[0]=1" ;;
  modify (for_range 0 (shape1 predscore) (body predscore labels)).

Definition Get (st : t) : double :=
  dsqrt (ddiv (sum_err st) (int_to_double (cnt_inst st))).

Definition Name : string := "rmse".

End MetricRMSE.

(** ** r^2, the squared correlation *)

Module MetricCorrSqr.

Record t := mk {
  sum_x : double; sum_y : double;
  sum_xsqr : double; sum_ysqr : double;
  sum_xyprod : double;
  cnt_inst : Z
}.

Definition Clear (_ : t) : t := mk dzero dzero dzero dzero dzero 0.

Definition new : t := mk dzero dzero dzero dzero dzero 0.

Definition body (predscore : Tensor2) (labels : Labels) (i : nat) (st : t) : t :=
  let x := fsub (dptr1 (row predscore i) 0%nat) fhalf in
  let y := fsub (labels i) fhalf in
  mk (dadd (sum_x st) (float_to_double x))
     (dadd (sum_y st) (float_to_double y))
     (dadd (sum_xsqr st) (float_to_double (fmul x x)))
     (dadd (sum_ysqr st) (float_to_double (fmul y y)))
     (dadd (sum_xyprod st) (float_to_double (fmul x y)))
     (wrap_long (cnt_inst st + 1)).

Definition AddEval (predscore : Tensor2) (labels : Labels) : M t unit :=
  Assert (Nat.eqb (shape0 predscore) 1) "RMSE can only accept shape[0]=1" ;;
  modify (for_range 0 (shape1 predscore) (body predscore labels)).

Definition Get (st : t) : double :=
  let n := int_to_double (cnt_inst st) in
  let mean_x := ddiv (sum_x st) n in
  let mean_y := ddiv (sum_y st) n in
  let corr := dsub (ddiv (sum_xyprod st) n) (dmul mean_x mean_y) in
  let xvar := dsub (ddiv (sum_xsqr st) n) (dmul mean_x mean_x) in
  let yvar := dsub (ddiv (sum_ysqr st) n) (dmul mean_y mean_y) in
  let res := ddiv (dmul corr corr) (dmul xvar yvar) in
  res.

Definition Name : string := "r2".

End MetricCorrSqr.

(** ** Classification error *)

Module MetricError.

Record t := mk { sum_err : double; cnt_inst : Z }.

Definition Clear (_ : t) : t := mk dzero 0.

Definition new : t := mk dzero 0.

(** One turn of the scan: [if (pred[i] > pred[maxidx]) maxidx = i]. *)
Definition scan (pred : Tensor1) (i maxidx : nat) : nat :=
  if fgt (dptr1 pred i) (dptr1 pred maxidx) then i else maxidx.

(** The scan starts at index 1 with [maxidx = 0]. *)
Definition GetMaxIndex_nat (pred : Tensor1) : nat :=
  for_range 1 (Nat.pred (shape1_0 pred)) (scan pred) 0%nat.

(** The returned [index_t] is converted to [int]. *)
Definition GetMaxIndex (pred : Tensor1) : Z :=
  wrap_int (Z.of_nat (GetMaxIndex_nat pred)).

Definition body (predscore : Tensor2) (labels : Labels) (i : nat) (st : t) : t :=
  let wrong := negb (GetMaxIndex (row predscore i) =? float_to_int (labels i)) in
  mk (dadd (sum_err st) (int_to_double (Z.b2z wrong)))
     (wrap_long (cnt_inst st + 1)).

Definition AddEval (predscore : Tensor2) (labels : Labels) : M t unit :=
  Assert (Nat.eqb (shape0 predscore) 1) "RMSE can only accept shape[0]=1" ;;
  modify (for_range 0 (shape1 predscore) (body predscore labels)).

Definition Get (st : t) : double :=
  ddiv (sum_err st) (int_to_double (cnt_inst st)).

Definition Name : string := "error".

End MetricError.

(** ** The polymorphic interface and the metric set *)

(** The three implementations of [IMetric]; a call through the virtual
    table is a match on the tag. *)
Inductive IMetric : Type :=
| RMSE (m : MetricRMSE.t)
| CorrSqr (m : MetricCorrSqr.t)
| Error (m : MetricError.t).

Module IM.

Definition Clear (m : IMetric) : IMetric :=
  match m with
  | RMSE s => RMSE (MetricRMSE.Clear s)
  | CorrSqr s => CorrSqr (MetricCorrSqr.Clear s)
  | Error s => Error (MetricError.Clear s)
  end.

Definition lift {St} (inj : St -> IMetric) (r : outcome unit * St) : outcome unit * IMetric :=
  (fst r, inj (snd r)).

Definition AddEval (predscore : Tensor2) (labels : Labels) : M IMetric unit :=
  fun m => match m with
           | RMSE s => lift RMSE (MetricRMSE.AddEval predscore labels s)
           | CorrSqr s => lift CorrSqr (MetricCorrSqr.AddEval predscore labels s)
           | Error s => lift Error (MetricError.AddEval predscore labels s)
           end.

Definition Get (m : IMetric) : double :=
  match m with
  | RMSE s => MetricRMSE.Get s
  | CorrSqr s => MetricCorrSqr.Get s
  | Error s => MetricError.Get s
  end.

Definition Name (m : IMetric) : string :=
  match m with
  | RMSE _ => MetricRMSE.Name
  | CorrSqr _ => MetricCorrSqr.Name
  | Error _ => MetricError.Name
  end.

End IM.

(** [strcmp] on the bytes that precede the terminating NUL: the sign of
    the first difference, the bytes compared as [unsigned char]. *)
Fixpoint strcmp (a b : string) : Z :=
  match a, b with
  | EmptyString, EmptyString => 0
  | EmptyString, String _ _ => -1
  | String _ _, EmptyString => 1
  | String c a', String d b' =>
      match N.compare (N_of_ascii c) (N_of_ascii d) with
      | Eq => strcmp a' b'
      | Lt => -1
      | Gt => 1
      end
  end.

(** [std::sort]: the comparator is a strict weak ordering and the result
    is a sorted permutation.  libstdc++ sorts a range of at most sixteen
    elements by straight insertion, which is what is written here; the
    set never holds more than four metrics when it is sorted. *)
Fixpoint sort_insert {A} (cmp : A -> A -> bool) (x : A) (l : list A) : list A :=
  match l with
  | [] => [x]
  | y :: l' => if cmp x y then x :: y :: l' else y :: sort_insert cmp x l'
  end.

Definition std_sort {A} (cmp : A -> A -> bool) (l : list A) : list A :=
  fold_left (fun acc x => sort_insert cmp x acc) l [].

(** [std::unique]: of every run of consecutive equal elements the first
    one is kept.  [unique_from last rest] is the scan with [last] the
    element most recently kept. *)
Fixpoint unique_from {A} (eq : A -> A -> bool) (last : A) (rest : list A) : list A :=
  match rest with
  | [] => [last]
  | y :: r => if eq last y then unique_from eq last r
              else last :: unique_from eq y r
  end.

Definition std_unique {A} (eq : A -> A -> bool) (l : list A) : list A :=
  match l with
  | [] => []
  | x :: r => unique_from eq x r
  end.

Module MetricSet.

(** [std::vector<IMetric*> evals_]. *)
Definition t := list IMetric.

Definition new : t := [].

Definition CmpName (a b : IMetric) : bool := strcmp (IM.Name a) (IM.Name b) <? 0.
Definition EqualName (a b : IMetric) : bool := strcmp (IM.Name a) (IM.Name b) =? 0.

Definition push_if (c : bool) (m : IMetric) (evals_ : t) : t :=
  if c then evals_ ++ [m] else evals_.

Definition AddMetric (name : string) (evals_ : t) : t :=
  let evals_ := push_if (strcmp name "rmse" =? 0) (RMSE MetricRMSE.new) evals_ in
  let evals_ := push_if (strcmp name "error" =? 0) (Error MetricError.new) evals_ in
  let evals_ := push_if (strcmp name "r2" =? 0) (CorrSqr MetricCorrSqr.new) evals_ in
  let evals_ := std_sort CmpName evals_ in
  std_unique EqualName evals_.

Definition Clear (evals_ : t) : t := map IM.Clear evals_.

(** The members are visited in order; a failing member ends the run. *)
Fixpoint AddEval (predscore : Tensor2) (labels : Labels) (evals_ : t) : outcome unit * t :=
  match evals_ with
  | [] => (Done tt, [])
  | m :: rest =>
      match IM.AddEval predscore labels m with
      | (Done _, m') =>
          let (r, rest') := AddEval predscore labels rest in (r, m' :: rest')
      | (Abort msg, m') => (Abort msg, m' :: rest)
      end
  end.

(** The states the private vector can be in: those built from the empty
    set by the public member functions. *)
Inductive reachable : t -> Prop :=
| reach_new : reachable new
| reach_AddMetric name s : reachable s -> reachable (AddMetric name s)
| reach_Clear s : reachable s -> reachable (Clear s)
| reach_AddEval p l s : reachable s -> reachable (snd (AddEval p l s)).

End MetricSet.

(** ** Vocabulary of the statements *)

(** The strict order and the preorder read off a comparator such as
    [CmpName]. *)
Definition lt_ {A} (cmp : A -> A -> bool) (a b : A) : Prop := cmp a b = true.
Definition le_ {A} (cmp : A -> A -> bool) (a b : A) : Prop := cmp b a = false.

(** Names in strictly ascending [strcmp] order. *)
Definition name_lt (a b : string) : Prop := strcmp a b < 0.

(** Number of members that report the name [n]. *)
Definition count_name (n : string) (evals_ : MetricSet.t) : nat :=
  List.length (filter (fun m => strcmp (IM.Name m) n =? 0) evals_).

(** A score vector without NaN, on which [>] is a total order. *)
Definition no_nan (pred : Tensor1) : bool :=
  forallb (fun j => negb (is_nan (dptr1 pred j))) (seq 0 (shape1_0 pred)).

(** [m] is the index of the maximum of [pred], the first one in
    ascending index order when the maximum occurs several times. *)
Definition is_first_max (pred : Tensor1) (m : nat) : Prop :=
  (m < shape1_0 pred)%nat
  /\ (forall j, (j < shape1_0 pred)%nat -> SFleb (dptr1 pred j) (dptr1 pred m) = true)
  /\ (forall j, (j < m)%nat -> SFltb (dptr1 pred j) (dptr1 pred m) = true).

(** The same without an assumption on NaN: no score is greater than the
    one at [m], and no earlier score is equal to it. *)
Definition is_first_maximal (pred : Tensor1) (m : nat) : Prop :=
  (m < shape1_0 pred)%nat
  /\ (forall j, (j < shape1_0 pred)%nat -> fgt (dptr1 pred j) (dptr1 pred m) = false)
  /\ (forall j, (j < m)%nat -> SFeqb (dptr1 pred j) (dptr1 pred m) = false).

(** Invariant of the scan of [GetMaxIndex]: after the turns below [i],
    [m] is the first maximal index among the scores below [i]. *)
Definition scan_inv (pred : Tensor1) (i m : nat) : Prop :=
  (m < i)%nat
  /\ (forall j, (j < i)%nat -> fgt (dptr1 pred j) (dptr1 pred m) = false)
  /\ (forall j, (j < m)%nat -> SFeqb (dptr1 pred j) (dptr1 pred m) = false).

(** The double [1.0]. *)
Definition done : double := S754_finite false 4503599627370496 (-52).

(** What one instance adds to the error statistics: 1 when the predicted
    class differs from the label's class, 0 otherwise, and one instance
    more. *)
Definition count_instance (predicted label_class : Z) (st : MetricError.t) : MetricError.t :=
  MetricError.mk
    (dadd (MetricError.sum_err st) (if predicted =? label_class then dzero else done))
    (wrap_long (MetricError.cnt_inst st + 1)).

(** One [AddEval] call: the score buffer and the label array. *)
Definition Batch : Type := Tensor2 * Labels.

(** Successive [AddEval] calls on one metric object. *)
Fixpoint calls {St} (AddEval : Tensor2 -> Labels -> M St unit) (bs : list Batch)
  : M St unit :=
  match bs with
  | [] => ret tt
  | b :: rest => AddEval (fst b) (snd b) ;; calls AddEval rest
  end.

(** The (score, label) pairs of a batch with one output per instance, in
    instance order. *)
Definition instances (b : Batch) : list (float * float) :=
  map (fun i => (dptr1 (row (fst b) i) 0%nat, snd b i)) (seq 0 (shape1 (fst b))).

(** A sum of doubles, accumulated from the left onto [init]. *)
Definition dsum_from (init : double) (l : list double) : double := fold_left dadd l init.
Definition dsum : list double -> double := dsum_from dzero.

(** [(score - label)^2], computed in [float] and widened. *)
Definition sqr_diff (p : float * float) : double :=
  let diff := fsub (fst p) (snd p) in float_to_double (fmul diff diff).

(** The values centred on 0.5, computed in [float]. *)
Definition centred_x (p : float * float) : float := fsub (fst p) fhalf.
Definition centred_y (p : float * float) : float := fsub (snd p) fhalf.

(** The squared correlation as the specification words it, from the five
    sums and the count. *)
Definition corr_sqr_of (sum_x sum_y sum_x2 sum_y2 sum_xy : double) (count : Z) : double :=
  let n := int_to_double count in
  let mean_x := ddiv sum_x n in
  let mean_y := ddiv sum_y n in
  let cov := dsub (ddiv sum_xy n) (dmul mean_x mean_y) in
  let var_x := dsub (ddiv sum_x2 n) (dmul mean_x mean_x) in
  let var_y := dsub (ddiv sum_y2 n) (dmul mean_y mean_y) in
  ddiv (dmul cov cov) (dmul var_x var_y).

(** A [long] value. *)
Definition long_range (c : Z) : Prop := - 2 ^ 63 <= c <= LONG_MAX.

(** Concatenation of two batches along the instance axis. *)
Definition concat_scores (a b : Tensor2) : Tensor2 :=
  mkTensor2 (shape0 a) (shape1 a + shape1 b)
    (fun i => if (i <? shape1 a)%nat then dptr2 a i else dptr2 b (i - shape1 a)%nat).

Definition concat_labels (n : nat) (la lb : Labels) : Labels :=
  fun i => if (i <? n)%nat then la i else lb (i - n)%nat.

(** ** The rest of the interface *)

(** [MetricCorrSqr::sqr], the private helper on floats. *)
Definition MetricCorrSqr_sqr (x : float) : float := fmul x x.

Module MetricSetOut.

(** One [fprintf(fo, "\t%s-%s:%f", evname, name, value)]: the text
    written before the number, and the double handed to [%f]. *)
Record fragment := mkFragment { text : string; value : double }.

(** [MetricSet::Print]: one fragment per member, in vector order. *)
Definition Print (evname : string) (evals_ : MetricSet.t) : list fragment :=
  map (fun m => mkFragment (String "009" (evname ++ "-" ++ IM.Name m ++ ":"))
                           (IM.Get m))
      evals_.

End MetricSetOut.

(** The names [AddMetric] knows. *)
Definition registry : list string := ["rmse"; "error"; "r2"]%string.

(** The set [AddMetric] builds from the empty one for a list of names. *)
Definition build (names : list string) : MetricSet.t :=
  fold_left (fun s n => MetricSet.AddMetric n s) names MetricSet.new.

(** The three metrics as constructed, in name order. *)
Definition all_fresh : MetricSet.t :=
  [Error MetricError.new; CorrSqr MetricCorrSqr.new; RMSE MetricRMSE.new].

(** Whether a member's name occurs in a list of names. *)
Definition named_in (names : list string) (m : IMetric) : bool :=
  existsb (String.eqb (IM.Name m)) names.

(** A sub-vector of [all_fresh], chosen by three flags. *)
Definition pick (e c r : bool) : MetricSet.t :=
  (if e then [Error MetricError.new] else [])
  ++ (if c then [CorrSqr MetricCorrSqr.new] else [])
  ++ (if r then [RMSE MetricRMSE.new] else []).

(** A double whose sign bit is clear, a zero, or a NaN. *)
Definition not_negative (x : spec_float) : bool :=
  match x with
  | S754_zero _ | S754_nan => true
  | S754_infinity s | S754_finite s _ _ => negb s
  end.

(** Successive [AddEval] calls on the whole set. *)
Definition set_calls (bs : list Batch) : M MetricSet.t unit :=
  calls MetricSet.AddEval bs.

(** Case analysis on the integer comparisons inside [SFcompare]. *)
Ltac cmp_cases :=
  repeat match goal with
  | H : context [Pos.compare_cont Eq ?a ?b] |- _ =>
      change (Pos.compare_cont Eq a b) with (Pos.compare a b) in H
  | |- context [Pos.compare_cont Eq ?a ?b] =>
      change (Pos.compare_cont Eq a b) with (Pos.compare a b)
  end;
  repeat match goal with
  | H : context [Z.compare ?a ?b] |- _ => destruct (Z.compare_spec a b); simpl in *
  | |- context [Z.compare ?a ?b] => destruct (Z.compare_spec a b); simpl in *
  | H : context [Pos.compare ?a ?b] |- _ => destruct (Pos.compare_spec a b); simpl in *
  | |- context [Pos.compare ?a ?b] => destruct (Pos.compare_spec a b); simpl in *
  end; try reflexivity; try discriminate; try lia.

(** Inversion of a sortedness hypothesis on a vector of known names. *)
Ltac sorted_inv :=
  repeat match goal with
  | H : StronglySorted _ (_ :: _) |- _ => inversion H; clear H; subst
  | H : Forall _ (_ :: _) |- _ => inversion H; clear H; subst
  end;
  repeat match goal with
  | H : name_lt _ _ |- _ => vm_compute in H; try discriminate H; clear H
  end.

(** * Properties *)

(** ** Loops *)

Lemma for_range_fold {St} (body : nat -> St -> St) n : forall start s,
  for_range start n body s = fold_left (fun s i => body i s) (seq start n) s.
Proof.
  induction n as [|n IH]; intros start s; simpl; [reflexivity|apply IH].
Qed.

Lemma fold_left_pointwise {A B} (f g : A -> B -> A) l :
  (forall a b, f a b = g a b) -> forall a, fold_left f l a = fold_left g l a.
Proof.
  intros H. induction l as [|x l IH]; intros a; simpl; [reflexivity|].
  rewrite H. apply IH.
Qed.

Lemma for_range_ext {St} (f g : nat -> St -> St) n : forall start s,
  (forall i, (start <= i < start + n)%nat -> forall s', f i s' = g i s') ->
  for_range start n f s = for_range start n g s.
Proof.
  induction n as [|n IH]; intros start s H; simpl; [reflexivity|].
  rewrite (H start) by lia. apply IH. intros i Hi. apply H. lia.
Qed.

Lemma for_range_shift {St} (f : nat -> St -> St) k n : forall start s,
  for_range (k + start) n f s = for_range start n (fun i => f (k + i)%nat) s.
Proof.
  induction n as [|n IH]; intros start s; simpl; [reflexivity|].
  rewrite <- IH. f_equal. lia.
Qed.

Lemma for_range_app {St} (f : nat -> St -> St) n m : forall start s,
  for_range start (n + m) f s = for_range (start + n) m f (for_range start n f s).
Proof.
  induction n as [|n IH]; intros start s; simpl.
  - f_equal. lia.
  - rewrite IH. f_equal. lia.
Qed.

(** ** Sorting and deduplication, for any strict weak ordering *)

Section SortUnique.

Context {A : Type}.
Variable cmp eqv : A -> A -> bool.

Hypothesis cmp_asym : forall a b, (lt_ cmp) a b -> (le_ cmp) a b.
Hypothesis le_trans : forall a b c, (le_ cmp) a b -> (le_ cmp) b c -> (le_ cmp) a c.
Hypothesis eqv_spec : forall a b, eqv a b = true <-> ((le_ cmp) a b /\ (le_ cmp) b a).

Lemma cmp_irrefl a : cmp a a = false.
Proof.
  destruct (cmp a a) eqn:E; [|reflexivity].
  apply cmp_asym in E as E'. unfold le_ in E'. congruence.
Qed.

Lemma eqv_refl a : eqv a a = true.
Proof. apply eqv_spec. split; apply cmp_irrefl. Qed.

Lemma lt_le_trans a b c : (lt_ cmp) a b -> (le_ cmp) b c -> (lt_ cmp) a c.
Proof.
  unfold lt_. intros Hab Hbc. destruct (cmp a c) eqn:E; [reflexivity|].
  assert (H : (le_ cmp) b a) by (apply (le_trans b c a); assumption).
  unfold le_ in H. congruence.
Qed.

Lemma le_not_eqv_lt a b : (le_ cmp) a b -> eqv a b = false -> (lt_ cmp) a b.
Proof.
  unfold lt_. intros Hle Hne. destruct (cmp a b) eqn:E; [reflexivity|].
  assert (eqv a b = true) by (apply eqv_spec; split; assumption).
  congruence.
Qed.

Lemma lt_not_eqv a b : (lt_ cmp) a b -> eqv a b = false.
Proof.
  intros H. destruct (eqv a b) eqn:E; [|reflexivity].
  apply eqv_spec in E. destruct E as [_ E]. unfold le_, lt_ in *. congruence.
Qed.

Lemma sort_insert_perm x l : Permutation (x :: l) (sort_insert cmp x l).
Proof.
  induction l as [|y l IH]; simpl; [reflexivity|].
  destruct (cmp x y); [reflexivity|].
  rewrite perm_swap. apply perm_skip, IH.
Qed.

Lemma std_sort_perm_acc l : forall acc,
  Permutation (l ++ acc) (fold_left (fun acc x => sort_insert cmp x acc) l acc).
Proof.
  induction l as [|x l IH]; intros acc; simpl; [reflexivity|].
  rewrite <- IH. rewrite <- sort_insert_perm.
  apply Permutation_middle.
Qed.

Lemma std_sort_perm l : Permutation l (std_sort cmp l).
Proof.
  unfold std_sort. rewrite <- std_sort_perm_acc, app_nil_r. reflexivity.
Qed.

Lemma sort_insert_sorted x l :
  StronglySorted (le_ cmp) l -> StronglySorted (le_ cmp) (sort_insert cmp x l).
Proof.
  induction 1 as [|y l Hs IH Hall]; simpl.
  - repeat constructor.
  - destruct (cmp x y) eqn:E.
    + assert (Hxy : (le_ cmp) x y) by (apply cmp_asym; exact E).
      constructor; [constructor; assumption|].
      constructor; [assumption|].
      eapply Forall_impl; [|exact Hall]. intros z Hz. eapply le_trans; eassumption.
    + constructor; [assumption|].
      eapply Permutation_Forall; [apply sort_insert_perm|].
      constructor; assumption.
Qed.

Lemma std_sort_sorted_acc l : forall acc,
  StronglySorted (le_ cmp) acc ->
  StronglySorted (le_ cmp) (fold_left (fun acc x => sort_insert cmp x acc) l acc).
Proof.
  induction l as [|x l IH]; intros acc H; simpl; [assumption|].
  apply IH, sort_insert_sorted, H.
Qed.

Lemma std_sort_sorted l : StronglySorted (le_ cmp) (std_sort cmp l).
Proof. apply std_sort_sorted_acc. constructor. Qed.

Lemma unique_from_incl x r z : In z (unique_from eqv x r) -> In z (x :: r).
Proof.
  revert x. induction r as [|y r IH]; intros x; simpl; [tauto|].
  destruct (eqv x y).
  - intros H. apply IH in H. simpl in H. tauto.
  - simpl. intros [H|H]; [tauto|]. apply IH in H. simpl in H. tauto.
Qed.

Lemma unique_from_head x r : In x (unique_from eqv x r).
Proof.
  induction r as [|y r IH]; simpl; [tauto|].
  destruct (eqv x y); simpl; tauto.
Qed.

(** Every element dropped by [std::unique] is equivalent to one kept. *)
Lemma unique_from_repr x r z :
  In z (x :: r) -> exists w, In w (unique_from eqv x r) /\ eqv w z = true.
Proof.
  revert x. induction r as [|y r IH]; intros x Hz.
  - destruct Hz as [<-|[]]. exists x. simpl. split; [tauto|apply eqv_refl].
  - simpl. destruct (eqv x y) eqn:E.
    + destruct Hz as [<-|[<-|Hz]].
      * apply IH. left. reflexivity.
      * exists x. split; [apply unique_from_head|exact E].
      * apply IH. right. exact Hz.
    + destruct Hz as [<-|Hz].
      * exists x. split; [left; reflexivity|apply eqv_refl].
      * destruct (IH y Hz) as [w [Hw Hwz]]. exists w. split; [right|]; assumption.
Qed.

Lemma unique_from_strict r : forall x,
  StronglySorted (le_ cmp) (x :: r) -> StronglySorted (lt_ cmp) (unique_from eqv x r).
Proof.
  induction r as [|y r IH]; intros x H; simpl.
  - repeat constructor.
  - inversion H as [|? ? Hs Hall]; subst.
    inversion Hs as [|? ? Hs' Hall']; subst.
    inversion Hall as [|? ? Hxy Hxr]; subst.
    destruct (eqv x y) eqn:E.
    + apply IH. constructor; assumption.
    + constructor; [apply IH; assumption|].
      assert (Hlt : (lt_ cmp) x y) by (apply le_not_eqv_lt; assumption).
      apply Forall_forall. intros z Hz. apply unique_from_incl in Hz.
      destruct Hz as [<-|Hz]; [assumption|].
      eapply lt_le_trans; [exact Hlt|].
      rewrite Forall_forall in Hall'. apply Hall', Hz.
Qed.

Lemma std_unique_strict l :
  StronglySorted (le_ cmp) l -> StronglySorted (lt_ cmp) (std_unique eqv l).
Proof.
  destruct l as [|x r]; simpl; [constructor|apply unique_from_strict].
Qed.

(** A strictly sorted range is left as it is by both algorithms. *)
Lemma sort_insert_last x acc :
  Forall (fun y => (lt_ cmp) y x) acc -> sort_insert cmp x acc = acc ++ [x].
Proof.
  induction 1 as [|y acc Hy _ IH]; simpl; [reflexivity|].
  apply cmp_asym in Hy. unfold le_ in Hy. rewrite Hy, IH. reflexivity.
Qed.

Lemma strict_app_inv acc x l :
  StronglySorted (lt_ cmp) (acc ++ x :: l) -> Forall (fun y => (lt_ cmp) y x) acc.
Proof.
  induction acc as [|y acc IH]; simpl; intros H; [constructor|].
  inversion H as [|? ? Hs Hall]; subst.
  constructor; [|apply IH, Hs].
  rewrite Forall_forall in Hall. apply Hall, in_elt.
Qed.

Lemma std_sort_strict_acc l : forall acc,
  StronglySorted (lt_ cmp) (acc ++ l) ->
  fold_left (fun acc x => sort_insert cmp x acc) l acc = acc ++ l.
Proof.
  induction l as [|x l IH]; intros acc H; simpl.
  - rewrite app_nil_r. reflexivity.
  - rewrite (sort_insert_last x acc) by (eapply strict_app_inv; exact H).
    rewrite IH; rewrite <- app_assoc; simpl; [reflexivity|exact H].
Qed.

Lemma std_sort_strict l : StronglySorted (lt_ cmp) l -> std_sort cmp l = l.
Proof. intros H. unfold std_sort. rewrite std_sort_strict_acc; [reflexivity|exact H]. Qed.

Lemma unique_from_strict_id r : forall x,
  StronglySorted (lt_ cmp) (x :: r) -> unique_from eqv x r = x :: r.
Proof.
  induction r as [|y r IH]; intros x H; simpl; [reflexivity|].
  inversion H as [|? ? Hs Hall]; subst.
  inversion Hall as [|? ? Hxy _]; subst.
  rewrite (lt_not_eqv _ _ Hxy), IH; [reflexivity|assumption].
Qed.

Lemma std_unique_strict_id l : StronglySorted (lt_ cmp) l -> std_unique eqv l = l.
Proof.
  destruct l as [|x r]; simpl; [reflexivity|apply unique_from_strict_id].
Qed.

End SortUnique.

(** ** [strcmp] is a total order on strings *)

Lemma strcmp_antisym a : forall b, strcmp b a = - strcmp a b.
Proof.
  induction a as [|c a IH]; intros [|d b]; simpl; try reflexivity.
  rewrite (N.compare_antisym (N_of_ascii c) (N_of_ascii d)).
  destruct (N.compare (N_of_ascii c) (N_of_ascii d)); simpl; auto.
Qed.

Lemma strcmp_eq a : forall b, strcmp a b = 0 <-> a = b.
Proof.
  induction a as [|c a IH]; intros [|d b]; simpl; split; intros H;
    try reflexivity; try discriminate.
  - destruct (N.compare_spec (N_of_ascii c) (N_of_ascii d)) as [E|E|E]; try discriminate.
    apply (f_equal ascii_of_N) in E. rewrite !ascii_N_embedding in E.
    apply IH in H. congruence.
  - injection H as -> ->. rewrite N.compare_refl. apply IH. reflexivity.
Qed.

Lemma strcmp_refl a : strcmp a a = 0.
Proof. apply strcmp_eq. reflexivity. Qed.

Lemma strcmp_ge_trans a : forall b c,
  0 <= strcmp b a -> 0 <= strcmp c b -> 0 <= strcmp c a.
Proof.
  induction a as [|x a IH]; intros [|y b] [|z c]; simpl; try lia.
  destruct (N.compare_spec (N_of_ascii y) (N_of_ascii x)) as [E1|E1|E1];
    destruct (N.compare_spec (N_of_ascii z) (N_of_ascii y)) as [E2|E2|E2];
    destruct (N.compare_spec (N_of_ascii z) (N_of_ascii x)) as [E3|E3|E3];
    try lia.
  apply IH.
Qed.

(** ** The metric set *)

Lemma CmpName_asym a b :
  MetricSet.CmpName a b = true -> MetricSet.CmpName b a = false.
Proof.
  unfold MetricSet.CmpName. rewrite Z.ltb_lt, Z.ltb_ge.
  rewrite (strcmp_antisym (IM.Name a) (IM.Name b)). lia.
Qed.

Lemma CmpName_le_trans a b c :
  MetricSet.CmpName b a = false -> MetricSet.CmpName c b = false ->
  MetricSet.CmpName c a = false.
Proof.
  unfold MetricSet.CmpName. rewrite !Z.ltb_ge.
  intros H1 H2. exact (strcmp_ge_trans _ _ _ H1 H2).
Qed.

Lemma EqualName_spec a b :
  MetricSet.EqualName a b = true <->
  (MetricSet.CmpName b a = false /\ MetricSet.CmpName a b = false).
Proof.
  unfold MetricSet.EqualName, MetricSet.CmpName.
  rewrite Z.eqb_eq, !Z.ltb_ge.
  rewrite (strcmp_antisym (IM.Name a) (IM.Name b)). lia.
Qed.

Lemma StronglySorted_map {A B} (f : A -> B) (R : B -> B -> Prop) l :
  StronglySorted (fun a b => R (f a) (f b)) l <-> StronglySorted R (map f l).
Proof.
  induction l as [|x l IH]; simpl; split; intros H; try constructor;
    inversion H as [|? ? Hs Hall]; subst.
  - apply IH, Hs.
  - exact (proj2 (Forall_map f (R (f x)) l) Hall).
  - apply IH, Hs.
  - exact (proj1 (Forall_map f (R (f x)) l) Hall).
Qed.

Lemma StronglySorted_impl {A} (R R' : A -> A -> Prop) l :
  (forall a b, R a b -> R' a b) -> StronglySorted R l -> StronglySorted R' l.
Proof.
  intros HR. induction 1 as [|x l _ IH Hall]; constructor; [exact IH|].
  eapply Forall_impl; [|exact Hall]. intros b. apply HR.
Qed.

Lemma name_lt_NoDup l : StronglySorted name_lt l -> NoDup l.
Proof.
  induction 1 as [|x l Hs IH Hall]; constructor; [|exact IH].
  intros Hin. rewrite Forall_forall in Hall. apply Hall in Hin.
  unfold name_lt in Hin. rewrite strcmp_refl in Hin. lia.
Qed.

Lemma AddMetric_strict name evals_ :
  StronglySorted (lt_ MetricSet.CmpName) (MetricSet.AddMetric name evals_).
Proof.
  unfold MetricSet.AddMetric.
  apply (std_unique_strict MetricSet.CmpName MetricSet.EqualName
           CmpName_le_trans EqualName_spec).
  apply (std_sort_sorted MetricSet.CmpName CmpName_asym CmpName_le_trans).
Qed.

Lemma AddMetric_names_sorted name evals_ :
  StronglySorted name_lt (map IM.Name (MetricSet.AddMetric name evals_)).
Proof.
  apply (proj1 (StronglySorted_map IM.Name name_lt _)).
  eapply StronglySorted_impl; [|apply (AddMetric_strict name evals_)].
  intros a b Hb. unfold lt_, MetricSet.CmpName in Hb. apply Z.ltb_lt in Hb. exact Hb.
Qed.

Lemma count_name_le1 n l :
  StronglySorted name_lt (map IM.Name l) -> (count_name n l <= 1)%nat.
Proof.
  unfold count_name. induction l as [|x l IH]; simpl; intros H; [lia|].
  inversion H as [|? ? Hs Hall]; subst. specialize (IH Hs).
  destruct (strcmp (IM.Name x) n =? 0) eqn:E; simpl; [|lia].
  apply Z.eqb_eq, strcmp_eq in E. subst n.
  assert (Hnil : filter (fun m => strcmp (IM.Name m) (IM.Name x) =? 0) l = []).
  { destruct (filter _ l) as [|y f] eqn:Ef; [reflexivity|exfalso].
    assert (Hy : In y (filter (fun m => strcmp (IM.Name m) (IM.Name x) =? 0) l))
      by (rewrite Ef; left; reflexivity).
    apply filter_In in Hy. destruct Hy as [Hy Hn].
    apply Z.eqb_eq, strcmp_eq in Hn.
    rewrite Forall_forall in Hall. specialize (Hall (IM.Name y) (in_map _ _ _ Hy)).
    unfold name_lt in Hall. rewrite Hn, strcmp_refl in Hall. lia. }
  rewrite Hnil. simpl. lia.
Qed.

Lemma count_name_ge1 n l y :
  In y l -> IM.Name y = n -> (1 <= count_name n l)%nat.
Proof.
  intros Hy Hn. unfold count_name.
  assert (Hin : In y (filter (fun m => strcmp (IM.Name m) n =? 0) l)).
  { apply filter_In. split; [exact Hy|]. apply Z.eqb_eq, strcmp_eq, Hn. }
  destruct (filter _ l); [destruct Hin|simpl; lia].
Qed.

(** A metric that is pushed is represented, by name, after the sort and
    the deduplication. *)
Lemma sort_unique_keeps_name l y :
  In y l ->
  exists w, In w (std_unique MetricSet.EqualName (std_sort MetricSet.CmpName l))
            /\ IM.Name w = IM.Name y.
Proof.
  intros Hy.
  apply (Permutation_in _ (std_sort_perm MetricSet.CmpName l)) in Hy.
  destruct (std_sort MetricSet.CmpName l) as [|x r]; [destruct Hy|].
  destruct (unique_from_repr MetricSet.CmpName MetricSet.EqualName
              CmpName_asym EqualName_spec x r y Hy) as [w [Hw Hwy]].
  exists w. split; [exact Hw|].
  unfold MetricSet.EqualName in Hwy. apply Z.eqb_eq, strcmp_eq in Hwy. exact Hwy.
Qed.

(** The names held by the set do not depend on the statistics. *)
Lemma Clear_names s : map IM.Name (MetricSet.Clear s) = map IM.Name s.
Proof.
  unfold MetricSet.Clear. rewrite map_map. apply map_ext. intros []; reflexivity.
Qed.

Lemma IM_AddEval_name p l m : IM.Name (snd (IM.AddEval p l m)) = IM.Name m.
Proof. destruct m; reflexivity. Qed.

Lemma AddEval_names p l s :
  map IM.Name (snd (MetricSet.AddEval p l s)) = map IM.Name s.
Proof.
  induction s as [|m s IH]; simpl; [reflexivity|].
  pose proof (IM_AddEval_name p l m) as Hm.
  destruct (IM.AddEval p l m) as [[[]|msg] m']; simpl in Hm.
  - destruct (MetricSet.AddEval p l s) as [r rest']. simpl in *. congruence.
  - simpl. congruence.
Qed.

Lemma reachable_sorted s :
  MetricSet.reachable s -> StronglySorted name_lt (map IM.Name s).
Proof.
  induction 1 as [|name s _ _|s _ IH|p l s _ IH].
  - constructor.
  - apply AddMetric_names_sorted.
  - rewrite Clear_names. exact IH.
  - rewrite AddEval_names. exact IH.
Qed.

Lemma names_sorted_strict s :
  StronglySorted name_lt (map IM.Name s) -> StronglySorted (lt_ MetricSet.CmpName) s.
Proof.
  intros H. apply (proj2 (StronglySorted_map IM.Name name_lt _)) in H.
  eapply StronglySorted_impl; [|exact H].
  intros a b Hb. unfold lt_, MetricSet.CmpName. apply Z.ltb_lt. exact Hb.
Qed.

(** C2.  After every call of [MetricSet::AddMetric] the members are
    sorted by name (strictly, in [strcmp] order), so no two of them report
    the same name and every name is reported by at most one member; and
    two calls of [AddMetric("rmse")], from any set, leave exactly one
    member named "rmse". *)
Theorem AddMetric_sorted_unique :
  (forall name evals_,
     let r := MetricSet.AddMetric name evals_ in
     StronglySorted name_lt (map IM.Name r)
     /\ NoDup (map IM.Name r)
     /\ forall n, (count_name n r <= 1)%nat)
  /\ (forall evals_,
        count_name "rmse"
          (MetricSet.AddMetric "rmse" (MetricSet.AddMetric "rmse" evals_)) = 1%nat).
Proof.
  split.
  - intros name evals_ r. subst r.
    pose proof (AddMetric_names_sorted name evals_) as Hs.
    split; [exact Hs|]. split; [apply name_lt_NoDup, Hs|].
    intros n. apply count_name_le1, Hs.
  - intros evals_.
    set (s1 := MetricSet.AddMetric "rmse" evals_).
    pose proof (count_name_le1 "rmse" _ (AddMetric_names_sorted "rmse" s1)) as Hle.
    assert (Hge : (1 <= count_name "rmse" (MetricSet.AddMetric "rmse" s1))%nat).
    { destruct (sort_unique_keeps_name (s1 ++ [RMSE MetricRMSE.new]) (RMSE MetricRMSE.new))
        as [w [Hw Hn]].
      - apply in_or_app. right. left. reflexivity.
      - apply (count_name_ge1 "rmse" _ w); [exact Hw|exact Hn]. }
    lia.
Qed.

(** C7.  A name outside the registry makes [MetricSet::AddMetric] push
    nothing; the sort and the deduplication then find the vector already
    strictly sorted and return it as it was.  The function has no failing
    outcome. *)
Theorem AddMetric_unknown_name name evals_ :
  MetricSet.reachable evals_ ->
  name <> "rmse"%string -> name <> "error"%string -> name <> "r2"%string ->
  MetricSet.AddMetric name evals_ = evals_.
Proof.
  intros Hr H1 H2 H3.
  assert (Hne : forall n, name <> n -> (strcmp name n =? 0) = false).
  { intros n Hn. apply Z.eqb_neq. intros E. apply strcmp_eq in E. contradiction. }
  unfold MetricSet.AddMetric.
  rewrite (Hne _ H1), (Hne _ H2), (Hne _ H3). unfold MetricSet.push_if.
  pose proof (names_sorted_strict _ (reachable_sorted _ Hr)) as Hs.
  rewrite (std_sort_strict MetricSet.CmpName CmpName_asym _ Hs).
  apply (std_unique_strict_id MetricSet.CmpName MetricSet.EqualName EqualName_spec _ Hs).
Qed.

Lemma AddMetric_unknown_name_witness :
  let s := MetricSet.AddMetric "rmse" (MetricSet.AddMetric "error" MetricSet.new) in
  MetricSet.reachable s /\
  "bogus"%string <> "rmse"%string /\
  MetricSet.AddMetric "bogus" s = s /\ List.length s = 2%nat.
Proof.
  intros s.
  assert (Hr : MetricSet.reachable s) by (repeat constructor).
  split; [exact Hr|]. split; [discriminate|]. split; [|reflexivity].
  apply (AddMetric_unknown_name "bogus" s Hr); discriminate.
Defined.

(** ** Floating-point comparison *)

Lemma SFltb_trans x y z :
  SFltb x y = true -> SFltb y z = true -> SFltb x z = true.
Proof.
  unfold SFltb, SFcompare.
  destruct x as [[]|[]| |[] m1 e1], y as [[]|[]| |[] m2 e2], z as [[]|[]| |[] m3 e3];
    simpl; intros H1 H2; try reflexivity; try discriminate; cmp_cases.
Qed.

Lemma SFltb_eqb_r x y z :
  SFltb x y = true -> SFeqb z y = true -> SFltb x z = true.
Proof.
  unfold SFltb, SFeqb, SFcompare.
  destruct x as [[]|[]| |[] m1 e1], y as [[]|[]| |[] m2 e2], z as [[]|[]| |[] m3 e3];
    simpl; intros H1 H2; try reflexivity; try discriminate; cmp_cases.
Qed.

Lemma SFltb_irrefl x : SFltb x x = false.
Proof.
  unfold SFltb, SFcompare. destruct x as [[]|[]| |[] m e]; simpl; try reflexivity;
    rewrite Z.compare_refl; change (Pos.compare_cont Eq m m) with (Pos.compare m m);
    rewrite Pos.compare_refl; reflexivity.
Qed.

Lemma SFltb_false_leb x y :
  is_nan x = false -> is_nan y = false -> SFltb y x = false -> SFleb x y = true.
Proof.
  unfold SFltb, SFleb, SFcompare.
  destruct x as [[]|[]| |[] m1 e1], y as [[]|[]| |[] m2 e2];
    simpl; intros Hx Hy H1; try reflexivity; try discriminate; cmp_cases.
Qed.

Lemma SFleb_neq_ltb x y :
  SFleb x y = true -> SFeqb x y = false -> SFltb x y = true.
Proof.
  unfold SFltb, SFleb, SFeqb. destruct (SFcompare x y) as [[]|]; congruence.
Qed.

(** ** The scan of [GetMaxIndex] *)

(** Invariant rule for the counting loop. *)
Lemma for_range_inv {St} (P : nat -> St -> Prop) (body : nat -> St -> St) n :
  forall start s,
  (forall i s', (start <= i < start + n)%nat -> P i s' -> P (S i) (body i s')) ->
  P start s -> P (start + n)%nat (for_range start n body s).
Proof.
  induction n as [|n IH]; intros start s Hstep H0; simpl.
  - rewrite Nat.add_0_r. exact H0.
  - replace (start + S n)%nat with (S start + n)%nat by lia.
    apply IH.
    + intros i s' Hi. apply Hstep. lia.
    + apply Hstep; [lia|exact H0].
Qed.

Lemma scan_inv_step pred i m :
  scan_inv pred i m -> scan_inv pred (S i) (MetricError.scan pred i m).
Proof.
  unfold scan_inv, MetricError.scan, fgt. intros (Hm & Hmax & Hfirst).
  destruct (SFltb (dptr1 pred m) (dptr1 pred i)) eqn:E.
  - split; [lia|]. split.
    + intros j Hj. assert (Hc : j = i \/ (j < i)%nat) by lia.
      destruct Hc as [->|Hc]; [apply SFltb_irrefl|].
      specialize (Hmax j Hc).
      destruct (SFltb (dptr1 pred i) (dptr1 pred j)) eqn:F; [|reflexivity].
      rewrite (SFltb_trans _ _ _ E F) in Hmax. discriminate.
    + intros j Hj. specialize (Hmax j Hj).
      destruct (SFeqb (dptr1 pred j) (dptr1 pred i)) eqn:F; [|reflexivity].
      rewrite (SFltb_eqb_r _ _ _ E F) in Hmax. discriminate.
  - split; [lia|]. split; [|exact Hfirst].
    intros j Hj. assert (Hc : j = i \/ (j < i)%nat) by lia.
    destruct Hc as [->|Hc]; [exact E|apply Hmax, Hc].
Qed.

Lemma GetMaxIndex_nat_maximal pred :
  (1 <= shape1_0 pred)%nat -> is_first_maximal pred (MetricError.GetMaxIndex_nat pred).
Proof.
  intros Hn. unfold MetricError.GetMaxIndex_nat.
  assert (H : scan_inv pred (1 + Nat.pred (shape1_0 pred))
                (for_range 1 (Nat.pred (shape1_0 pred)) (MetricError.scan pred) 0%nat)).
  { apply (for_range_inv (scan_inv pred)).
    - intros i m _. apply scan_inv_step.
    - split; [lia|]. split.
      + intros j Hj. replace j with 0%nat by lia. apply SFltb_irrefl.
      + intros j Hj. lia. }
  unfold is_first_maximal.
  replace (1 + Nat.pred (shape1_0 pred))%nat with (shape1_0 pred) in H by lia.
  exact H.
Qed.

Lemma no_nan_at pred j :
  no_nan pred = true -> (j < shape1_0 pred)%nat -> is_nan (dptr1 pred j) = false.
Proof.
  unfold no_nan. rewrite forallb_forall. intros H Hj.
  apply negb_true_iff, H, in_seq. lia.
Qed.

Lemma first_maximal_no_nan pred m :
  no_nan pred = true -> is_first_maximal pred m -> is_first_max pred m.
Proof.
  intros Hnan (Hm & Hmax & Hfirst). split; [exact Hm|].
  assert (Hle : forall j, (j < shape1_0 pred)%nat ->
                          SFleb (dptr1 pred j) (dptr1 pred m) = true).
  { intros j Hj. apply SFltb_false_leb; try (apply no_nan_at; assumption).
    apply Hmax, Hj. }
  split; [exact Hle|].
  intros j Hj. apply SFleb_neq_ltb; [apply Hle; lia|apply Hfirst, Hj].
Qed.

Lemma wrap_int_small z : - 2 ^ 31 <= z < 2 ^ 31 -> wrap_int z = z.
Proof. intros H. unfold wrap_int. rewrite Z.mod_small; lia. Qed.

Lemma wrap_long_small z : - 2 ^ 63 <= z < 2 ^ 63 -> wrap_long z = z.
Proof. intros H. unfold wrap_long. rewrite Z.mod_small; lia. Qed.

Lemma wrap_long_add a b : wrap_long (wrap_long a + b) = wrap_long (a + b).
Proof.
  unfold wrap_long. f_equal.
  replace ((a + 2 ^ 63) mod 2 ^ 64 - 2 ^ 63 + b + 2 ^ 63)
    with ((a + 2 ^ 63) mod 2 ^ 64 + b) by lia.
  rewrite Zplus_mod_idemp_l. f_equal. lia.
Qed.

Lemma MetricError_body_count predscore labels i st :
  MetricError.body predscore labels i st =
  count_instance (MetricError.GetMaxIndex (row predscore i)) (float_to_int (labels i)) st.
Proof.
  unfold MetricError.body, count_instance.
  destruct (MetricError.GetMaxIndex (row predscore i) =? float_to_int (labels i));
    reflexivity.
Qed.

Lemma Error_AddEval_ok predscore labels st :
  shape0 predscore = 1%nat ->
  MetricError.AddEval predscore labels st =
  (Done tt, for_range 0 (shape1 predscore) (MetricError.body predscore labels) st).
Proof.
  intros H. unfold MetricError.AddEval, bind, Assert, modify. rewrite H. reflexivity.
Qed.

(** C5.  [GetMaxIndex] returns the index of the maximum score of the
    instance, the first such index when the maximum is repeated (for
    every score vector no score is greater than the chosen one and no
    earlier score equals it; without NaN the chosen score is above or
    equal to all and strictly above all earlier ones), and the index
    survives the conversion to [int].  A batch that [AddEval] accepts adds
    to [sum_err], instance by instance, 1 when that index differs from
    [(int)labels[i]] and 0 otherwise, and 1 to the instance count. *)
Theorem MetricError_first_max_and_count :
  (forall pred, (1 <= shape1_0 pred)%nat ->
     is_first_maximal pred (MetricError.GetMaxIndex_nat pred)
     /\ (no_nan pred = true -> is_first_max pred (MetricError.GetMaxIndex_nat pred))
     /\ (Z.of_nat (shape1_0 pred) <= 2 ^ 31 ->
         MetricError.GetMaxIndex pred = Z.of_nat (MetricError.GetMaxIndex_nat pred)))
  /\ (forall predscore labels st, shape0 predscore = 1%nat ->
        MetricError.AddEval predscore labels st =
        (Done tt,
         fold_left
           (fun s i => count_instance (MetricError.GetMaxIndex (row predscore i))
                                      (float_to_int (labels i)) s)
           (seq 0 (shape1 predscore)) st)).
Proof.
  split.
  - intros pred Hn.
    pose proof (GetMaxIndex_nat_maximal pred Hn) as Hmax.
    split; [exact Hmax|]. split.
    + intros Hnan. apply first_maximal_no_nan; assumption.
    + intros Hsz. unfold MetricError.GetMaxIndex. apply wrap_int_small.
      destruct Hmax as [Hlt _]. lia.
  - intros predscore labels st H1.
    rewrite (Error_AddEval_ok predscore labels st H1).
    f_equal. rewrite for_range_fold.
    apply fold_left_pointwise. intros s i. apply MetricError_body_count.
Qed.

Lemma MetricError_first_max_and_count_witness :
  let pred := mkTensor1 3 (fun j => nth j [fratio 1 5; fratio 4 5; fratio 4 5] S754_nan) in
  let batch := mkTensor2 1 2 (fun i _ => nth i [fratio 1 5; fratio 4 5] S754_nan) in
  let labels := fun i => nth i [fratio 0 1; fratio 1 1] S754_nan in
  (1 <= shape1_0 pred)%nat /\ no_nan pred = true /\
  is_first_max pred 1%nat /\ MetricError.GetMaxIndex pred = 1 /\
  shape0 batch = 1%nat /\
  MetricError.AddEval batch labels MetricError.new = (Done tt, MetricError.mk done 2).
Proof.
  intros pred batch labels.
  assert (Hn : (1 <= shape1_0 pred)%nat) by (simpl; lia).
  assert (Hnan : no_nan pred = true) by reflexivity.
  assert (Hsz : Z.of_nat (shape1_0 pred) <= 2 ^ 31) by (simpl; lia).
  assert (H1 : shape0 batch = 1%nat) by reflexivity.
  destruct (proj1 MetricError_first_max_and_count pred Hn) as (_ & Hmax & Hint).
  refine (conj Hn (conj Hnan (conj (Hmax Hnan) (conj (Hint Hsz) (conj H1 _))))).
  exact (proj2 MetricError_first_max_and_count batch labels MetricError.new H1).
Defined.

(** ** Accumulation *)

(** A field that every turn of the loop increases by a term of its own
    is, after the loop, the left-to-right sum of the terms. *)
Lemma fold_sum_field {St I} (step : I -> St -> St) (field : St -> double)
      (term : I -> double) :
  (forall i s, field (step i s) = dadd (field s) (term i)) ->
  forall l s, field (fold_left (fun s i => step i s) l s)
              = dsum_from (field s) (map term l).
Proof.
  intros Hstep. unfold dsum_from.
  induction l as [|i l IH]; intros s; simpl; [reflexivity|].
  rewrite IH, Hstep. reflexivity.
Qed.

(** The instance counter after the loop. *)
Lemma fold_count_field {St I} (step : I -> St -> St) (cnt : St -> Z) :
  (forall i s, cnt (step i s) = wrap_long (cnt s + 1)) ->
  forall l s, long_range (cnt s) ->
    cnt (fold_left (fun s i => step i s) l s)
    = wrap_long (cnt s + Z.of_nat (List.length l)).
Proof.
  intros Hstep. induction l as [|i l IH]; intros s Hr.
  - simpl. rewrite Z.add_0_r. symmetry. apply wrap_long_small.
    unfold long_range, LONG_MAX in Hr. lia.
  - cbn [fold_left List.length]. rewrite IH.
    + rewrite Hstep, wrap_long_add. f_equal. lia.
    + rewrite Hstep. unfold long_range, LONG_MAX, wrap_long.
      pose proof (Z.mod_pos_bound (cnt s + 1 + 2 ^ 63) (2 ^ 64)). lia.
Qed.

Lemma dsum_from_app init l1 l2 :
  dsum_from init (l1 ++ l2) = dsum_from (dsum_from init l1) l2.
Proof. unfold dsum_from. apply fold_left_app. Qed.

Lemma wrap_long_range z : long_range (wrap_long z).
Proof.
  unfold long_range, LONG_MAX, wrap_long.
  pose proof (Z.mod_pos_bound (z + 2 ^ 63) (2 ^ 64)). lia.
Qed.

(** *** RMSE *)

Lemma RMSE_AddEval_ok predscore labels st :
  shape0 predscore = 1%nat ->
  MetricRMSE.AddEval predscore labels st =
  (Done tt, for_range 0 (shape1 predscore) (MetricRMSE.body predscore labels) st).
Proof.
  intros H. unfold MetricRMSE.AddEval, bind, Assert, modify. rewrite H. reflexivity.
Qed.

Lemma RMSE_loop_sum predscore labels st :
  MetricRMSE.sum_err (for_range 0 (shape1 predscore) (MetricRMSE.body predscore labels) st)
  = dsum_from (MetricRMSE.sum_err st) (map sqr_diff (instances (predscore, labels))).
Proof.
  rewrite for_range_fold. unfold instances. rewrite map_map.
  apply (fold_sum_field (MetricRMSE.body predscore labels) MetricRMSE.sum_err).
  intros i s. reflexivity.
Qed.

Lemma RMSE_loop_count predscore labels st :
  long_range (MetricRMSE.cnt_inst st) ->
  MetricRMSE.cnt_inst (for_range 0 (shape1 predscore) (MetricRMSE.body predscore labels) st)
  = wrap_long (MetricRMSE.cnt_inst st
               + Z.of_nat (List.length (instances (predscore, labels)))).
Proof.
  intros Hr. rewrite for_range_fold. unfold instances. rewrite length_map.
  apply (fold_count_field (MetricRMSE.body predscore labels) MetricRMSE.cnt_inst);
    [intros i s; reflexivity|exact Hr].
Qed.

Lemma RMSE_loop_range predscore labels st :
  long_range (MetricRMSE.cnt_inst st) ->
  long_range (MetricRMSE.cnt_inst
                (for_range 0 (shape1 predscore) (MetricRMSE.body predscore labels) st)).
Proof. intros Hr. rewrite RMSE_loop_count by exact Hr. apply wrap_long_range. Qed.

Lemma RMSE_calls bs : forall st,
  Forall (fun b : Batch => shape0 (fst b) = 1%nat) bs ->
  long_range (MetricRMSE.cnt_inst st) ->
  exists st',
    calls MetricRMSE.AddEval bs st = (Done tt, st')
    /\ MetricRMSE.sum_err st'
       = dsum_from (MetricRMSE.sum_err st) (map sqr_diff (flat_map instances bs))
    /\ MetricRMSE.cnt_inst st'
       = wrap_long (MetricRMSE.cnt_inst st
                    + Z.of_nat (List.length (flat_map instances bs))).
Proof.
  induction bs as [|[p l] bs IH]; intros st Hall Hr.
  - exists st. simpl. split; [reflexivity|]. split; [reflexivity|].
    rewrite Z.add_0_r. symmetry. apply wrap_long_small.
    unfold long_range, LONG_MAX in Hr. lia.
  - inversion Hall as [|? ? H1 Hall']; subst. simpl in H1.
    set (st1 := for_range 0 (shape1 p) (MetricRMSE.body p l) st).
    destruct (IH st1 Hall' (RMSE_loop_range p l st Hr)) as (st' & Hrun & Hsum & Hcnt).
    exists st'. split; [|split].
    + cbn [calls fst snd]. unfold bind. rewrite (RMSE_AddEval_ok p l st H1). exact Hrun.
    + rewrite Hsum. cbn [flat_map]. rewrite map_app, dsum_from_app.
      unfold st1. rewrite RMSE_loop_sum. reflexivity.
    + rewrite Hcnt. cbn [flat_map]. rewrite length_app.
      unfold st1. rewrite RMSE_loop_count by exact Hr.
      rewrite wrap_long_add. f_equal. lia.
Qed.

(** C3.  Starting from a cleared RMSE metric, any sequence of [AddEval]
    calls with one output per instance that brings [n >= 1] instances in
    total (a count that fits [long]) succeeds and leaves [sum_err] equal
    to the sum, in accumulation order, of [(score[i] - label[i])^2] over
    all the instances and the count equal to [n]; [Get] then returns
    [sqrt(sum_err / n)]. *)
Theorem RMSE_sum_count_get (bs : list Batch) :
  Forall (fun b : Batch => shape0 (fst b) = 1%nat) bs ->
  let all := flat_map instances bs in
  let n := Z.of_nat (List.length all) in
  1 <= n <= LONG_MAX ->
  exists st,
    calls MetricRMSE.AddEval bs MetricRMSE.new = (Done tt, st)
    /\ MetricRMSE.sum_err st = dsum (map sqr_diff all)
    /\ MetricRMSE.cnt_inst st = n
    /\ MetricRMSE.Get st = dsqrt (ddiv (dsum (map sqr_diff all)) (int_to_double n)).
Proof.
  intros Hall all n Hn.
  assert (H0 : long_range (MetricRMSE.cnt_inst MetricRMSE.new))
    by (unfold long_range, LONG_MAX; simpl; lia).
  destruct (RMSE_calls bs MetricRMSE.new Hall H0) as (st & Hrun & Hsum & Hcnt).
  assert (Hc : MetricRMSE.cnt_inst st = n).
  { rewrite Hcnt. simpl MetricRMSE.cnt_inst. rewrite Z.add_0_l.
    apply wrap_long_small. unfold LONG_MAX in Hn. fold all. fold n. lia. }
  exists st. split; [exact Hrun|]. split; [exact Hsum|]. split; [exact Hc|].
  unfold MetricRMSE.Get. rewrite Hsum, Hc. reflexivity.
Qed.

Lemma RMSE_sum_count_get_witness :
  let b1 : Batch := (mkTensor2 1 2 (fun i _ => nth i [fratio 0 1; fratio 1 1] S754_nan),
                     fun i => nth i [fratio 0 1; fratio 0 1] S754_nan) in
  let b2 : Batch := (mkTensor2 1 1 (fun i _ => fratio 1 2), fun i => fratio 1 1) in
  Forall (fun b : Batch => shape0 (fst b) = 1%nat) [b1; b2] /\
  1 <= Z.of_nat (List.length (flat_map instances [b1; b2])) <= LONG_MAX /\
  exists st,
    calls MetricRMSE.AddEval [b1; b2] MetricRMSE.new = (Done tt, st)
    /\ MetricRMSE.cnt_inst st = 3
    /\ MetricRMSE.Get st = S754_finite false 5814122118263953 (-53).
Proof.
  intros b1 b2.
  assert (Hall : Forall (fun b : Batch => shape0 (fst b) = 1%nat) [b1; b2])
    by (repeat constructor).
  assert (Hn : 1 <= Z.of_nat (List.length (flat_map instances [b1; b2])) <= LONG_MAX)
    by (vm_compute; split; discriminate).
  split; [exact Hall|]. split; [exact Hn|].
  destruct (RMSE_sum_count_get [b1; b2] Hall Hn) as (st & Hrun & _ & Hcnt & Hget).
  exists st. split; [exact Hrun|]. split; [exact Hcnt|].
  rewrite Hget. vm_compute. reflexivity.
Defined.

(** *** Squared correlation *)

Lemma CorrSqr_AddEval_ok predscore labels st :
  shape0 predscore = 1%nat ->
  MetricCorrSqr.AddEval predscore labels st =
  (Done tt, for_range 0 (shape1 predscore) (MetricCorrSqr.body predscore labels) st).
Proof.
  intros H. unfold MetricCorrSqr.AddEval, bind, Assert, modify. rewrite H. reflexivity.
Qed.

(** C4.  An accepted [AddEval] call on the squared-correlation metric
    adds, instance by instance and in order, [x = score[i] - 0.5] to
    [sum_x], [y = label[i] - 0.5] to [sum_y], [x*x], [y*y] and [x*y] to
    [sum_xsqr], [sum_ysqr] and [sum_xyprod], and the number of instances
    to the count; [Get] returns [cov^2 / (var_x * var_y)] computed from
    the five sums and the count as the specification words it. *)
Theorem CorrSqr_sums_and_get predscore labels st :
  shape0 predscore = 1%nat ->
  let all := instances (predscore, labels) in
  let n := Z.of_nat (List.length all) in
  0 <= MetricCorrSqr.cnt_inst st -> MetricCorrSqr.cnt_inst st + n <= LONG_MAX ->
  exists st',
    MetricCorrSqr.AddEval predscore labels st = (Done tt, st')
    /\ MetricCorrSqr.sum_x st'
       = dsum_from (MetricCorrSqr.sum_x st)
           (map (fun p => float_to_double (centred_x p)) all)
    /\ MetricCorrSqr.sum_y st'
       = dsum_from (MetricCorrSqr.sum_y st)
           (map (fun p => float_to_double (centred_y p)) all)
    /\ MetricCorrSqr.sum_xsqr st'
       = dsum_from (MetricCorrSqr.sum_xsqr st)
           (map (fun p => float_to_double (fmul (centred_x p) (centred_x p))) all)
    /\ MetricCorrSqr.sum_ysqr st'
       = dsum_from (MetricCorrSqr.sum_ysqr st)
           (map (fun p => float_to_double (fmul (centred_y p) (centred_y p))) all)
    /\ MetricCorrSqr.sum_xyprod st'
       = dsum_from (MetricCorrSqr.sum_xyprod st)
           (map (fun p => float_to_double (fmul (centred_x p) (centred_y p))) all)
    /\ MetricCorrSqr.cnt_inst st' = MetricCorrSqr.cnt_inst st + n
    /\ forall s, MetricCorrSqr.Get s =
         corr_sqr_of (MetricCorrSqr.sum_x s) (MetricCorrSqr.sum_y s)
                     (MetricCorrSqr.sum_xsqr s) (MetricCorrSqr.sum_ysqr s)
                     (MetricCorrSqr.sum_xyprod s) (MetricCorrSqr.cnt_inst s).
Proof.
  intros H1 all n Hc0 Hc1.
  exists (for_range 0 (shape1 predscore) (MetricCorrSqr.body predscore labels) st).
  split; [apply CorrSqr_AddEval_ok, H1|].
  rewrite for_range_fold. subst n all. unfold instances in *.
  rewrite length_map in Hc1. rewrite length_map, !map_map. cbn [fst snd] in *.
  repeat split.
  - apply (fold_sum_field (MetricCorrSqr.body predscore labels) MetricCorrSqr.sum_x).
    intros i s. reflexivity.
  - apply (fold_sum_field (MetricCorrSqr.body predscore labels) MetricCorrSqr.sum_y).
    intros i s. reflexivity.
  - apply (fold_sum_field (MetricCorrSqr.body predscore labels) MetricCorrSqr.sum_xsqr).
    intros i s. reflexivity.
  - apply (fold_sum_field (MetricCorrSqr.body predscore labels) MetricCorrSqr.sum_ysqr).
    intros i s. reflexivity.
  - apply (fold_sum_field (MetricCorrSqr.body predscore labels) MetricCorrSqr.sum_xyprod).
    intros i s. reflexivity.
  - rewrite (fold_count_field (MetricCorrSqr.body predscore labels) MetricCorrSqr.cnt_inst).
    + apply wrap_long_small. unfold LONG_MAX in Hc1. lia.
    + intros i s. reflexivity.
    + unfold long_range, LONG_MAX in *. lia.
Qed.

Lemma CorrSqr_sums_and_get_witness :
  let scores := mkTensor2 1 3 (fun i _ => nth i [fratio 1 4; fratio 3 4; fratio 1 1] S754_nan) in
  let labels := fun i => nth i [fratio 1 4; fratio 3 4; fratio 1 1] S754_nan in
  shape0 scores = 1%nat /\
  0 <= MetricCorrSqr.cnt_inst MetricCorrSqr.new /\
  exists st',
    MetricCorrSqr.AddEval scores labels MetricCorrSqr.new = (Done tt, st')
    /\ MetricCorrSqr.cnt_inst st' = 3
    /\ MetricCorrSqr.Get st' = done.
Proof.
  intros scores labels.
  assert (H1 : shape0 scores = 1%nat) by reflexivity.
  assert (H2 : 0 <= MetricCorrSqr.cnt_inst MetricCorrSqr.new) by (simpl; lia).
  assert (H3 : MetricCorrSqr.cnt_inst MetricCorrSqr.new
               + Z.of_nat (List.length (instances (scores, labels))) <= LONG_MAX)
    by (vm_compute; discriminate).
  split; [exact H1|]. split; [exact H2|].
  destruct (CorrSqr_sums_and_get scores labels MetricCorrSqr.new H1 H2 H3)
    as (st' & Hrun & Hx & Hy & Hxx & Hyy & Hxy & Hc & Hget).
  exists st'. split; [exact Hrun|]. split; [exact Hc|].
  rewrite Hget, Hx, Hy, Hxx, Hyy, Hxy, Hc. vm_compute. reflexivity.
Defined.

(** ** Shape violations *)

(** C6.  When the output axis of the score buffer is not 1, [AddEval] of
    the RMSE and of the squared-correlation metric stops at the assertion,
    before the loop, and the statistics are as they were. *)
Theorem RMSE_CorrSqr_reject_shape predscore labels :
  shape0 predscore <> 1%nat ->
  (forall st, MetricRMSE.AddEval predscore labels st
              = (Abort "RMSE can only accept shape[0]=1", st))
  /\ (forall st, MetricCorrSqr.AddEval predscore labels st
                 = (Abort "RMSE can only accept shape[0]=1", st)).
Proof.
  intros H. apply Nat.eqb_neq in H.
  split; intros st.
  - unfold MetricRMSE.AddEval, bind, Assert. rewrite H. reflexivity.
  - unfold MetricCorrSqr.AddEval, bind, Assert. rewrite H. reflexivity.
Qed.

Lemma RMSE_CorrSqr_reject_shape_witness :
  let scores := mkTensor2 2 1 (fun _ j => nth j [fratio 9 10; fratio 1 10] S754_nan) in
  let labels := fun _ : nat => fratio 0 1 in
  let st := MetricRMSE.mk done 1 in
  shape0 scores <> 1%nat /\
  MetricRMSE.AddEval scores labels st = (Abort "RMSE can only accept shape[0]=1", st) /\
  MetricCorrSqr.AddEval scores labels MetricCorrSqr.new
  = (Abort "RMSE can only accept shape[0]=1", MetricCorrSqr.new).
Proof.
  intros scores labels st.
  assert (H : shape0 scores <> 1%nat) by (simpl; lia).
  split; [exact H|]. split.
  - exact (proj1 (RMSE_CorrSqr_reject_shape scores labels H) st).
  - exact (proj2 (RMSE_CorrSqr_reject_shape scores labels H) MetricCorrSqr.new).
Defined.

(** C1 (the code departs from it).  The error-rate metric carries the
    assertion of the RMSE metric, so the three-instance, two-class batch
    of the specification is refused and nothing is accumulated; the loop
    behind the assertion would have given the error rate 1/3. *)
Theorem MetricError_rejects_two_classes :
  let scores := mkTensor2 2 3
    (fun i j => nth j (nth i [[fratio 9 10; fratio 1 10];
                              [fratio 2 10; fratio 8 10];
                              [fratio 1 2; fratio 1 2]] []) S754_nan) in
  let labels := fun i => nth i [fratio 0 1; fratio 1 1; fratio 1 1] S754_nan in
  MetricError.AddEval scores labels MetricError.new
  = (Abort "RMSE can only accept shape[0]=1", MetricError.new)
  /\ for_range 0 (shape1 scores) (MetricError.body scores labels) MetricError.new
     = MetricError.mk done 3
  /\ MetricError.Get (MetricError.mk done 3) = ddiv done (int_to_double 3).
Proof.
  intros scores labels. split; [|split]; vm_compute; reflexivity.
Qed.

(** ** Empty batches *)

(** C8.  An [AddEval] call on a batch without instances leaves every
    metric in the state it was in, whatever that state, so [Get] is not
    affected; with one output per instance the call also succeeds. *)
Theorem AddEval_empty_batch (m : IMetric) predscore labels :
  shape1 predscore = 0%nat ->
  snd (IM.AddEval predscore labels m) = m
  /\ IM.Get (snd (IM.AddEval predscore labels m)) = IM.Get m
  /\ (shape0 predscore = 1%nat -> fst (IM.AddEval predscore labels m) = Done tt).
Proof.
  intros H0.
  assert (Hs : snd (IM.AddEval predscore labels m) = m).
  { destruct m as [s|s|s]; unfold IM.AddEval, IM.lift; cbn [snd]; f_equal.
    - unfold MetricRMSE.AddEval, bind, Assert, modify. rewrite H0.
      destruct (Nat.eqb (shape0 predscore) 1); reflexivity.
    - unfold MetricCorrSqr.AddEval, bind, Assert, modify. rewrite H0.
      destruct (Nat.eqb (shape0 predscore) 1); reflexivity.
    - unfold MetricError.AddEval, bind, Assert, modify. rewrite H0.
      destruct (Nat.eqb (shape0 predscore) 1); reflexivity. }
  split; [exact Hs|]. split; [rewrite Hs; reflexivity|].
  intros H1. destruct m as [s|s|s]; unfold IM.AddEval, IM.lift; cbn [fst].
  - rewrite RMSE_AddEval_ok by exact H1. reflexivity.
  - rewrite CorrSqr_AddEval_ok by exact H1. reflexivity.
  - rewrite Error_AddEval_ok by exact H1. reflexivity.
Qed.

Lemma AddEval_empty_batch_witness :
  let empty := mkTensor2 1 0 (fun _ _ => S754_nan) in
  let labels := fun _ : nat => S754_nan in
  let m := RMSE (MetricRMSE.mk done 4) in
  shape1 empty = 0%nat /\
  snd (IM.AddEval empty labels m) = m /\
  IM.Get (snd (IM.AddEval empty labels m)) = S754_finite false 4503599627370496 (-53).
Proof.
  intros empty labels m.
  assert (H0 : shape1 empty = 0%nat) by reflexivity.
  destruct (AddEval_empty_batch m empty labels H0) as (Hs & Hg & _).
  split; [exact H0|]. split; [exact Hs|].
  rewrite Hg. vm_compute. reflexivity.
Defined.

(** ** [Get] on an empty accumulator *)

Lemma int_to_double_0 : int_to_double 0 = dzero.
Proof. reflexivity. Qed.

Lemma ddiv_by_zero_nonfinite x s : nonfinite (ddiv x (S754_zero s)) = true.
Proof. destruct x; reflexivity. Qed.

Lemma dsqrt_nonfinite x : nonfinite x = true -> nonfinite (dsqrt x) = true.
Proof. destruct x as [|[]| |]; simpl; congruence. Qed.

Lemma dmul_nonfinite x y :
  nonfinite x = true -> nonfinite y = true -> nonfinite (dmul x y) = true.
Proof. destruct x, y; simpl; congruence. Qed.

Lemma dsub_nonfinite x y :
  nonfinite x = true -> nonfinite y = true -> nonfinite (dsub x y) = true.
Proof.
  destruct x as [|[]| |], y as [|[]| |]; simpl; congruence.
Qed.

Lemma ddiv_nonfinite_nan x y :
  nonfinite x = true -> nonfinite y = true -> ddiv x y = S754_nan.
Proof. destruct x, y; simpl; congruence. Qed.

(** C9.  With a zero instance count the divisor of every [Get] is the
    double 0.0; nothing guards the division and the value returned is an
    infinity or a NaN (always a NaN for the squared correlation, and a NaN
    for every freshly cleared metric).  [Get] has no failing outcome. *)
Theorem Get_without_instances :
  (forall st, MetricRMSE.cnt_inst st = 0 ->
     int_to_double (MetricRMSE.cnt_inst st) = dzero
     /\ nonfinite (MetricRMSE.Get st) = true)
  /\ (forall st, MetricCorrSqr.cnt_inst st = 0 ->
        int_to_double (MetricCorrSqr.cnt_inst st) = dzero
        /\ MetricCorrSqr.Get st = S754_nan)
  /\ (forall st, MetricError.cnt_inst st = 0 ->
        int_to_double (MetricError.cnt_inst st) = dzero
        /\ nonfinite (MetricError.Get st) = true)
  /\ (forall m, nonfinite (IM.Get (IM.Clear m)) = true).
Proof.
  split; [|split; [|split]].
  - intros st H. rewrite H. split; [reflexivity|].
    unfold MetricRMSE.Get. rewrite H, int_to_double_0.
    apply dsqrt_nonfinite, ddiv_by_zero_nonfinite.
  - intros st H. rewrite H. split; [reflexivity|].
    unfold MetricCorrSqr.Get. rewrite H, int_to_double_0.
    apply ddiv_nonfinite_nan.
    + apply dmul_nonfinite;
        apply dsub_nonfinite;
        try apply dmul_nonfinite; apply ddiv_by_zero_nonfinite.
    + apply dmul_nonfinite;
        apply dsub_nonfinite;
        try apply dmul_nonfinite; apply ddiv_by_zero_nonfinite.
  - intros st H. rewrite H. split; [reflexivity|].
    unfold MetricError.Get. rewrite H, int_to_double_0.
    apply ddiv_by_zero_nonfinite.
  - intros [s|s|s]; reflexivity.
Qed.

Lemma Get_without_instances_witness :
  MetricRMSE.cnt_inst MetricRMSE.new = 0 /\
  MetricRMSE.Get MetricRMSE.new = S754_nan /\
  nonfinite (MetricRMSE.Get MetricRMSE.new) = true /\
  MetricCorrSqr.Get MetricCorrSqr.new = S754_nan /\
  nonfinite (MetricError.Get MetricError.new) = true.
Proof.
  assert (H : MetricRMSE.cnt_inst MetricRMSE.new = 0) by reflexivity.
  split; [exact H|]. split; [reflexivity|]. split; [|split].
  - exact (proj2 (proj1 Get_without_instances MetricRMSE.new H)).
  - exact (proj2 (proj1 (proj2 Get_without_instances) MetricCorrSqr.new eq_refl)).
  - exact (proj2 (proj1 (proj2 (proj2 Get_without_instances)) MetricError.new eq_refl)).
Defined.

(** ** Splitting a batch *)

Lemma row_concat_l a b i :
  (i < shape1 a)%nat -> row (concat_scores a b) i = row a i.
Proof.
  intros Hi. unfold row, concat_scores. cbn [shape0 dptr2].
  apply Nat.ltb_lt in Hi. rewrite Hi. reflexivity.
Qed.

Lemma row_concat_r a b j :
  shape0 a = shape0 b -> row (concat_scores a b) (shape1 a + j)%nat = row b j.
Proof.
  intros Hs. unfold row, concat_scores. cbn [shape0 dptr2].
  assert (Hj : (shape1 a + j <? shape1 a)%nat = false) by (apply Nat.ltb_ge; lia).
  rewrite Hj, Hs. replace (shape1 a + j - shape1 a)%nat with j by lia. reflexivity.
Qed.

Lemma labels_concat_l n la lb i : (i < n)%nat -> concat_labels n la lb i = la i.
Proof.
  intros Hi. unfold concat_labels. apply Nat.ltb_lt in Hi. rewrite Hi. reflexivity.
Qed.

Lemma labels_concat_r n la lb j : concat_labels n la lb (n + j)%nat = lb j.
Proof.
  unfold concat_labels.
  assert (Hj : (n + j <? n)%nat = false) by (apply Nat.ltb_ge; lia).
  rewrite Hj. replace (n + j - n)%nat with j by lia. reflexivity.
Qed.

(** A loop body that reads only the score vector and the label of its
    own instance runs over a concatenation as over the two parts in
    turn. *)
Lemma loop_concat {St} (body : Tensor2 -> Labels -> nat -> St -> St) :
  (forall p l p' l' i i' s,
      row p i = row p' i' -> l i = l' i' -> body p l i s = body p' l' i' s) ->
  forall a b la lb s,
    shape0 a = shape0 b ->
    for_range 0 (shape1 a + shape1 b)
      (body (concat_scores a b) (concat_labels (shape1 a) la lb)) s
    = for_range 0 (shape1 b) (body b lb) (for_range 0 (shape1 a) (body a la) s).
Proof.
  intros Hlocal a b la lb s Hs.
  set (whole := body (concat_scores a b) (concat_labels (shape1 a) la lb)).
  rewrite for_range_app. cbn [Nat.add].
  assert (Hfst : for_range 0 (shape1 a) whole s = for_range 0 (shape1 a) (body a la) s).
  { apply for_range_ext. intros i Hi s'.
    apply Hlocal; [apply row_concat_l; lia|apply labels_concat_l; lia]. }
  rewrite Hfst.
  pose proof (for_range_shift whole (shape1 a) (shape1 b) 0
                (for_range 0 (shape1 a) (body a la) s)) as Hsnd.
  rewrite Nat.add_0_r in Hsnd. rewrite Hsnd.
  apply for_range_ext. intros i _ s'.
  apply Hlocal; [apply row_concat_r, Hs|apply labels_concat_r].
Qed.

Lemma RMSE_body_local p l p' l' i i' s :
  row p i = row p' i' -> l i = l' i' ->
  MetricRMSE.body p l i s = MetricRMSE.body p' l' i' s.
Proof. intros Hr Hl. unfold MetricRMSE.body. rewrite Hr, Hl. reflexivity. Qed.

Lemma CorrSqr_body_local p l p' l' i i' s :
  row p i = row p' i' -> l i = l' i' ->
  MetricCorrSqr.body p l i s = MetricCorrSqr.body p' l' i' s.
Proof. intros Hr Hl. unfold MetricCorrSqr.body. rewrite Hr, Hl. reflexivity. Qed.

Lemma Error_body_local p l p' l' i i' s :
  row p i = row p' i' -> l i = l' i' ->
  MetricError.body p l i s = MetricError.body p' l' i' s.
Proof. intros Hr Hl. unfold MetricError.body. rewrite Hr, Hl. reflexivity. Qed.

(** C10.  For each of the three metrics and from any state, [AddEval] on
    a batch A followed by [AddEval] on a batch B with the same output
    axis gives the outcome and the state of a single [AddEval] on A and
    B concatenated along the instance axis; with one output per instance
    both succeed. *)
Theorem AddEval_batch_split (m : IMetric) (a b : Tensor2) (la lb : Labels) :
  shape0 a = shape0 b ->
  (IM.AddEval a la ;; IM.AddEval b lb) m
  = IM.AddEval (concat_scores a b) (concat_labels (shape1 a) la lb) m
  /\ (shape0 a = 1%nat ->
      fst (IM.AddEval (concat_scores a b) (concat_labels (shape1 a) la lb) m) = Done tt).
Proof.
  intros Hs. split.
  - destruct m as [s|s|s]; unfold bind, IM.AddEval, IM.lift.
    + unfold MetricRMSE.AddEval, bind, Assert, modify.
      cbn [shape0 shape1 concat_scores]. rewrite <- Hs.
      destruct (Nat.eqb (shape0 a) 1); cbn [fst snd]; [|reflexivity].
      rewrite (loop_concat MetricRMSE.body RMSE_body_local a b la lb s Hs). reflexivity.
    + unfold MetricCorrSqr.AddEval, bind, Assert, modify.
      cbn [shape0 shape1 concat_scores]. rewrite <- Hs.
      destruct (Nat.eqb (shape0 a) 1); cbn [fst snd]; [|reflexivity].
      rewrite (loop_concat MetricCorrSqr.body CorrSqr_body_local a b la lb s Hs). reflexivity.
    + unfold MetricError.AddEval, bind, Assert, modify.
      cbn [shape0 shape1 concat_scores]. rewrite <- Hs.
      destruct (Nat.eqb (shape0 a) 1); cbn [fst snd]; [|reflexivity].
      rewrite (loop_concat MetricError.body Error_body_local a b la lb s Hs). reflexivity.
  - intros H1.
    assert (Hc : shape0 (concat_scores a b) = 1%nat) by exact H1.
    destruct m as [s|s|s]; unfold IM.AddEval, IM.lift; cbn [fst].
    + rewrite RMSE_AddEval_ok by exact Hc. reflexivity.
    + rewrite CorrSqr_AddEval_ok by exact Hc. reflexivity.
    + rewrite Error_AddEval_ok by exact Hc. reflexivity.
Qed.

Lemma AddEval_batch_split_witness :
  let a := mkTensor2 1 2 (fun i _ => nth i [fratio 0 1; fratio 1 1] S754_nan) in
  let la := fun i => nth i [fratio 0 1; fratio 0 1] S754_nan in
  let b := mkTensor2 1 1 (fun _ _ => fratio 1 2) in
  let lb := fun _ : nat => fratio 1 1 in
  let m := RMSE MetricRMSE.new in
  shape0 a = shape0 b /\
  (IM.AddEval a la ;; IM.AddEval b lb) m
  = IM.AddEval (concat_scores a b) (concat_labels (shape1 a) la lb) m /\
  IM.AddEval (concat_scores a b) (concat_labels (shape1 a) la lb) m
  = (Done tt, RMSE (MetricRMSE.mk (S754_finite false 5629499534213120 (-52)) 3)).
Proof.
  intros a la b lb m.
  assert (Hs : shape0 a = shape0 b) by reflexivity.
  split; [exact Hs|]. split.
  - exact (proj1 (AddEval_batch_split m a b la lb Hs)).
  - vm_compute. reflexivity.
Defined.

(** * Further properties of the metric set *)

(** ** The comparators *)

Lemma EqualName_eq a b : MetricSet.EqualName a b = true <-> IM.Name a = IM.Name b.
Proof. unfold MetricSet.EqualName. rewrite Z.eqb_eq. apply strcmp_eq. Qed.

Lemma CmpName_trans a b c :
  MetricSet.CmpName a b = true -> MetricSet.CmpName b c = true ->
  MetricSet.CmpName a c = true.
Proof.
  intros Hab Hbc.
  apply (lt_le_trans MetricSet.CmpName CmpName_le_trans a b c Hab).
  apply CmpName_asym, Hbc.
Qed.

(** X1.  [CmpName] is a strict weak ordering, as [std::sort] requires
    of its comparator, and [EqualName] is the equivalence it induces,
    which holds exactly between metrics of the same name. *)
Theorem CmpName_strict_weak_ordering :
  (forall a, MetricSet.CmpName a a = false)
  /\ (forall a b, MetricSet.CmpName a b = true -> MetricSet.CmpName b a = false)
  /\ (forall a b c, MetricSet.CmpName a b = true -> MetricSet.CmpName b c = true ->
                    MetricSet.CmpName a c = true)
  /\ (forall a b c, MetricSet.EqualName a b = true -> MetricSet.EqualName b c = true ->
                    MetricSet.EqualName a c = true)
  /\ (forall a b, MetricSet.EqualName a b = true <->
                  (MetricSet.CmpName a b = false /\ MetricSet.CmpName b a = false))
  /\ (forall a b, MetricSet.EqualName a b = true <-> IM.Name a = IM.Name b).
Proof.
  split; [|split; [|split; [|split; [|split]]]].
  - intros a. apply (cmp_irrefl MetricSet.CmpName CmpName_asym).
  - apply CmpName_asym.
  - apply CmpName_trans.
  - intros a b c Hab Hbc. apply EqualName_eq in Hab, Hbc. apply EqualName_eq. congruence.
  - intros a b. rewrite EqualName_spec. tauto.
  - apply EqualName_eq.
Qed.

Lemma CmpName_strict_weak_ordering_witness :
  let e := Error MetricError.new in
  let c := CorrSqr (MetricCorrSqr.mk done done done done done 1) in
  let r := RMSE MetricRMSE.new in
  MetricSet.CmpName e c = true /\ MetricSet.CmpName c r = true /\
  MetricSet.CmpName e r = true /\ MetricSet.CmpName r e = false /\
  MetricSet.EqualName c (CorrSqr MetricCorrSqr.new) = true.
Proof.
  intros e c r.
  assert (H1 : MetricSet.CmpName e c = true) by reflexivity.
  assert (H2 : MetricSet.CmpName c r = true) by reflexivity.
  destruct CmpName_strict_weak_ordering as (_ & Hasym & Htrans & _ & _ & Heq).
  pose proof (Htrans e c r H1 H2) as H3.
  split; [exact H1|]. split; [exact H2|]. split; [exact H3|].
  split; [exact (Hasym e r H3)|].
  apply Heq. reflexivity.
Defined.

(** ** Names held by the set *)

Lemma sort_unique_names l n :
  In n (map IM.Name (std_unique MetricSet.EqualName (std_sort MetricSet.CmpName l)))
  <-> In n (map IM.Name l).
Proof.
  rewrite !in_map_iff. split.
  - intros (w & Hn & Hw). exists w. split; [exact Hn|].
    apply (Permutation_in _ (Permutation_sym (std_sort_perm MetricSet.CmpName l))).
    destruct (std_sort MetricSet.CmpName l) as [|x r]; [destruct Hw|].
    apply (unique_from_incl MetricSet.EqualName x r w Hw).
  - intros (y & Hn & Hy). destruct (sort_unique_keeps_name l y Hy) as (w & Hw & Hwn).
    exists w. split; [congruence|exact Hw].
Qed.

Lemma strcmp_eqb a b : (strcmp a b =? 0) = String.eqb a b.
Proof.
  destruct (String.eqb_spec a b) as [E|E].
  - apply Z.eqb_eq, strcmp_eq, E.
  - apply Z.eqb_neq. intros H. apply strcmp_eq in H. contradiction.
Qed.

(** The vector handed to the sort: what was there and what the three
    tests pushed. *)
Lemma pushed_names name evals_ n :
  In n (map IM.Name
          (MetricSet.push_if (strcmp name "r2" =? 0) (CorrSqr MetricCorrSqr.new)
             (MetricSet.push_if (strcmp name "error" =? 0) (Error MetricError.new)
                (MetricSet.push_if (strcmp name "rmse" =? 0) (RMSE MetricRMSE.new)
                   evals_))))
  <-> In n (map IM.Name evals_) \/ (n = name /\ In name registry).
Proof.
  rewrite !strcmp_eqb. unfold MetricSet.push_if, registry.
  destruct (String.eqb_spec name "rmse") as [E1|E1];
    destruct (String.eqb_spec name "error") as [E2|E2];
    destruct (String.eqb_spec name "r2") as [E3|E3];
    try (subst name; discriminate);
    repeat rewrite map_app; repeat rewrite in_app_iff; simpl;
    unfold MetricRMSE.Name, MetricError.Name, MetricCorrSqr.Name;
    try subst name; intuition (subst; auto; congruence).
Qed.

(** X2.  After [AddMetric(name)] the names held by the set are those
    held before, together with [name] when it is one of "rmse", "error"
    and "r2": no name is lost and no other name appears. *)
Theorem AddMetric_names name evals_ n :
  In n (map IM.Name (MetricSet.AddMetric name evals_))
  <-> In n (map IM.Name evals_) \/ (n = name /\ In name registry).
Proof.
  unfold MetricSet.AddMetric. rewrite sort_unique_names. apply pushed_names.
Qed.

Lemma Name_in_registry m : In (IM.Name m) registry.
Proof. destruct m; simpl; tauto. Qed.

Lemma sorted_names_length s :
  StronglySorted name_lt (map IM.Name s) -> (List.length s <= 3)%nat.
Proof.
  intros H. apply name_lt_NoDup in H.
  rewrite <- (length_map IM.Name s).
  change 3%nat with (List.length registry).
  apply NoDup_incl_length; [exact H|].
  intros n Hn. apply in_map_iff in Hn. destruct Hn as (m & <- & _).
  apply Name_in_registry.
Qed.

(** X3.  Whatever sequence of [AddMetric], [Clear] and [AddEval] calls
    a set has gone through, its members are in strictly ascending name
    order, no two share a name, and there are at most three of them. *)
Theorem reachable_invariant s :
  MetricSet.reachable s ->
  StronglySorted name_lt (map IM.Name s)
  /\ NoDup (map IM.Name s)
  /\ (List.length s <= 3)%nat.
Proof.
  intros Hr. pose proof (reachable_sorted s Hr) as Hs.
  split; [exact Hs|]. split; [apply name_lt_NoDup, Hs|apply sorted_names_length, Hs].
Qed.

Lemma reachable_invariant_witness :
  let s := MetricSet.AddMetric "r2" (MetricSet.AddMetric "rmse"
             (MetricSet.AddMetric "error" (MetricSet.AddMetric "rmse" MetricSet.new))) in
  MetricSet.reachable s /\ map IM.Name s = ["error"; "r2"; "rmse"]%string /\
  NoDup (map IM.Name s) /\ (List.length s <= 3)%nat.
Proof.
  intros s.
  assert (Hr : MetricSet.reachable s) by (repeat constructor).
  destruct (reachable_invariant s Hr) as (_ & Hnd & Hlen).
  split; [exact Hr|]. split; [reflexivity|]. split; [exact Hnd|exact Hlen].
Defined.

(** ** Adding a name a second time *)

Section InsertDuplicate.

Context {A : Type}.
Variable cmp eqv : A -> A -> bool.

Hypothesis cmp_asym : forall a b, lt_ cmp a b -> le_ cmp a b.
Hypothesis le_trans : forall a b c, le_ cmp a b -> le_ cmp b c -> le_ cmp a c.
Hypothesis eqv_spec : forall a b, eqv a b = true <-> (le_ cmp a b /\ le_ cmp b a).

Lemma std_sort_snoc l x :
  std_sort cmp (l ++ [x]) = sort_insert cmp x (std_sort cmp l).
Proof. unfold std_sort. rewrite fold_left_app. reflexivity. Qed.

Lemma le_lt_trans a b c : le_ cmp a b -> lt_ cmp b c -> lt_ cmp a c.
Proof.
  unfold lt_. intros Hab Hbc. destruct (cmp a c) eqn:E; [reflexivity|].
  assert (H : le_ cmp c b) by (apply (le_trans c a b); assumption).
  unfold le_ in H. congruence.
Qed.

Lemma sort_insert_not_nil x l : sort_insert cmp x l <> [].
Proof. destruct l as [|y l]; simpl; [discriminate|]. destruct (cmp x y); discriminate. Qed.

(** An element equivalent to one already in a strictly sorted range is
    inserted right behind it and then dropped by [std::unique]. *)
Lemma unique_insert_dup l : forall w x,
  StronglySorted (lt_ cmp) l -> In w l -> eqv w x = true ->
  std_unique eqv (sort_insert cmp x l) = l.
Proof.
  induction l as [|y l IH]; intros w x Hs Hw Hwx; [destruct Hw|].
  inversion Hs as [|? ? Hs' Hall]; subst.
  apply eqv_spec in Hwx as Hle. destruct Hle as [Hwx1 Hwx2].
  assert (Hyx : w = y \/ lt_ cmp y x).
  { destruct Hw as [->|Hw]; [left; reflexivity|right].
    rewrite Forall_forall in Hall.
    apply (lt_le_trans cmp le_trans y w x); [apply Hall, Hw|exact Hwx1]. }
  simpl. destruct (cmp x y) eqn:E.
  - exfalso. destruct Hyx as [->|Hyx].
    + unfold le_ in Hwx1. congruence.
    + apply cmp_asym in Hyx. unfold le_ in Hyx. congruence.
  - simpl. destruct Hw as [->|Hw].
    + assert (Hins : sort_insert cmp x l = x :: l).
      { destruct l as [|z l']; [reflexivity|]. simpl.
        inversion Hall as [|? ? Hyz _]; subst.
        rewrite (le_lt_trans x w z Hwx2 Hyz). reflexivity. }
      rewrite Hins. simpl. rewrite Hwx.
      apply (unique_from_strict_id cmp eqv eqv_spec). exact Hs.
    + destruct Hyx as [->|Hyx].
      * exfalso. rewrite Forall_forall in Hall. specialize (Hall _ Hw).
        pose proof (cmp_irrefl cmp cmp_asym y) as Hirr. unfold lt_ in Hall. congruence.
      * pose proof (IH w x Hs' Hw Hwx) as IHl.
        destruct (sort_insert cmp x l) as [|h t] eqn:Eins;
          [exfalso; eapply sort_insert_not_nil; exact Eins|].
        assert (Hh : In h (x :: l)).
        { apply (Permutation_in _ (Permutation_sym (sort_insert_perm cmp x l))).
          rewrite Eins. left. reflexivity. }
        assert (Hyh : lt_ cmp y h).
        { destruct Hh as [<-|Hh]; [exact Hyx|].
          rewrite Forall_forall in Hall. apply Hall, Hh. }
        simpl. rewrite (lt_not_eqv cmp eqv eqv_spec y h Hyh).
        simpl in IHl. rewrite IHl. reflexivity.
Qed.

End InsertDuplicate.

Lemma sort_unique_dup s w x :
  StronglySorted name_lt (map IM.Name s) -> In w s -> IM.Name w = IM.Name x ->
  std_unique MetricSet.EqualName (std_sort MetricSet.CmpName (s ++ [x])) = s.
Proof.
  intros Hs Hw Hn. apply names_sorted_strict in Hs.
  rewrite std_sort_snoc.
  rewrite (std_sort_strict MetricSet.CmpName CmpName_asym _ Hs).
  apply (unique_insert_dup MetricSet.CmpName MetricSet.EqualName
           CmpName_asym CmpName_le_trans EqualName_spec s w x Hs Hw).
  apply EqualName_eq, Hn.
Qed.

Lemma sort_unique_sorted s :
  StronglySorted name_lt (map IM.Name s) ->
  std_unique MetricSet.EqualName (std_sort MetricSet.CmpName s) = s.
Proof.
  intros Hs. apply names_sorted_strict in Hs.
  rewrite (std_sort_strict MetricSet.CmpName CmpName_asym _ Hs).
  apply (std_unique_strict_id MetricSet.CmpName MetricSet.EqualName EqualName_spec _ Hs).
Qed.

(** On a strictly sorted vector, [AddMetric] with a name that is held
    already, or that is unknown, changes nothing. *)
Lemma AddMetric_sorted_no_change name s :
  StronglySorted name_lt (map IM.Name s) ->
  In name (map IM.Name s) \/ ~ In name registry ->
  MetricSet.AddMetric name s = s.
Proof.
  intros Hs Hcase. unfold MetricSet.AddMetric. rewrite !strcmp_eqb.
  destruct Hcase as [Hin|Hout].
  - apply in_map_iff in Hin. destruct Hin as (w & Hn & Hw).
    destruct w as [r|c|e]; simpl in Hn; subst name;
      cbn [String.eqb Ascii.eqb Bool.eqb MetricSet.push_if
           MetricRMSE.Name MetricCorrSqr.Name MetricError.Name]; simpl;
      eapply sort_unique_dup; try exact Hs; try exact Hw; reflexivity.
  - unfold registry in Hout. simpl in Hout.
    destruct (String.eqb_spec name "rmse") as [E1|E1]; [exfalso; apply Hout; auto|].
    destruct (String.eqb_spec name "error") as [E2|E2]; [exfalso; apply Hout; auto|].
    destruct (String.eqb_spec name "r2") as [E3|E3]; [exfalso; apply Hout; auto|].
    unfold MetricSet.push_if. apply sort_unique_sorted, Hs.
Qed.

(** X4.  [AddMetric] with a name the set holds already leaves the set
    as it is, accumulated statistics included (the sort keeps the member
    that was there in front of the new one, and [std::unique] keeps the
    first of the two); hence a repeated [AddMetric(name)] is the same as
    a single one, from any vector and for any name. *)
Theorem AddMetric_again :
  (forall s name, MetricSet.reachable s -> In name (map IM.Name s) ->
                  MetricSet.AddMetric name s = s)
  /\ (forall s name, MetricSet.AddMetric name (MetricSet.AddMetric name s)
                     = MetricSet.AddMetric name s).
Proof.
  split.
  - intros s name Hr Hin.
    apply AddMetric_sorted_no_change; [apply reachable_sorted, Hr|left; exact Hin].
  - intros s name.
    apply AddMetric_sorted_no_change; [apply AddMetric_names_sorted|].
    destruct (in_dec string_dec name registry) as [Hreg|Hreg]; [left|right; exact Hreg].
    unfold MetricSet.AddMetric. apply sort_unique_names, pushed_names.
    right. split; [reflexivity|exact Hreg].
Qed.

Lemma AddMetric_again_witness :
  let scores := mkTensor2 1 2 (fun i _ => nth i [fratio 0 1; fratio 1 1] S754_nan) in
  let labels := fun _ : nat => fratio 0 1 in
  let s := snd (MetricSet.AddEval scores labels
                  (MetricSet.AddMetric "rmse" MetricSet.new)) in
  MetricSet.reachable s /\ In "rmse"%string (map IM.Name s) /\
  s = [RMSE (MetricRMSE.mk done 2)] /\ MetricSet.AddMetric "rmse" s = s.
Proof.
  intros scores labels s.
  assert (Hr : MetricSet.reachable s) by (repeat constructor).
  assert (Hin : In "rmse"%string (map IM.Name s)) by (left; reflexivity).
  split; [exact Hr|]. split; [exact Hin|]. split; [vm_compute; reflexivity|].
  exact (proj1 AddMetric_again s "rmse"%string Hr Hin).
Defined.

(** ** The set built from a list of names *)

Lemma AddMetric_pick n e c r :
  MetricSet.AddMetric n (pick e c r)
  = pick (e || String.eqb "error" n) (c || String.eqb "r2" n) (r || String.eqb "rmse" n).
Proof.
  unfold MetricSet.AddMetric. rewrite !strcmp_eqb.
  rewrite (String.eqb_sym "error" n), (String.eqb_sym "r2" n), (String.eqb_sym "rmse" n).
  destruct (String.eqb_spec n "rmse") as [E1|E1];
    destruct (String.eqb_spec n "error") as [E2|E2];
    destruct (String.eqb_spec n "r2") as [E3|E3];
    try (subst n; discriminate);
    destruct e, c, r; reflexivity.
Qed.

Lemma filter_all_fresh names :
  filter (named_in names) all_fresh
  = pick (named_in names (Error MetricError.new))
         (named_in names (CorrSqr MetricCorrSqr.new))
         (named_in names (RMSE MetricRMSE.new)).
Proof.
  unfold all_fresh, pick. simpl.
  destruct (named_in names (Error MetricError.new)),
           (named_in names (CorrSqr MetricCorrSqr.new)),
           (named_in names (RMSE MetricRMSE.new)); reflexivity.
Qed.

Lemma named_in_snoc names n m :
  named_in (names ++ [n]) m = named_in names m || String.eqb (IM.Name m) n.
Proof.
  unfold named_in. rewrite existsb_app. simpl. rewrite orb_false_r. reflexivity.
Qed.

Lemma build_filter names : build names = filter (named_in names) all_fresh.
Proof.
  induction names as [|n names IH] using rev_ind; [reflexivity|].
  unfold build in *. rewrite fold_left_app. cbn [fold_left]. rewrite IH.
  rewrite (filter_all_fresh names), AddMetric_pick.
  rewrite (filter_all_fresh (names ++ [n])), !named_in_snoc. reflexivity.
Qed.

Lemma named_in_In names m : named_in names m = true <-> In (IM.Name m) names.
Proof.
  unfold named_in. rewrite existsb_exists. split.
  - intros (n & Hn & E). apply String.eqb_eq in E. congruence.
  - intros H. exists (IM.Name m). split; [exact H|apply String.eqb_refl].
Qed.

(** X5.  The set built from the empty one by [AddMetric] over a list
    of names holds the freshly constructed metrics of the known names
    that occur in the list, in name order; so the order of the calls,
    repeated names and unknown names make no difference. *)
Theorem build_canonical :
  (forall names, build names = filter (named_in names) all_fresh)
  /\ (forall names names',
        (forall n, In n registry -> (In n names <-> In n names')) ->
        build names = build names').
Proof.
  split; [exact build_filter|].
  intros names names' H. rewrite !build_filter.
  apply filter_ext_in. intros m _.
  pose proof (Name_in_registry m) as Hreg. specialize (H _ Hreg).
  destruct (named_in names m) eqn:E1, (named_in names' m) eqn:E2; try reflexivity.
  - apply named_in_In, H, named_in_In in E1. congruence.
  - apply named_in_In, H, named_in_In in E2. congruence.
Qed.

Lemma build_canonical_witness :
  (forall n, In n registry ->
     (In n ["rmse"; "bogus"; "error"; "rmse"]%string <-> In n ["error"; "rmse"]%string)) /\
  build ["rmse"; "bogus"; "error"; "rmse"]%string = build ["error"; "rmse"]%string /\
  build ["error"; "rmse"]%string = [Error MetricError.new; RMSE MetricRMSE.new].
Proof.
  assert (H : forall n, In n registry ->
     (In n ["rmse"; "bogus"; "error"; "rmse"]%string <-> In n ["error"; "rmse"]%string)).
  { intros n Hn. simpl in *.
    destruct Hn as [<-|[<-|[<-|[]]]]; split; intros; auto;
      repeat match goal with H : _ \/ _ |- _ => destruct H end;
      try discriminate; try contradiction; auto. }
  split; [exact H|]. split; [|reflexivity].
  exact (proj2 build_canonical _ _ H).
Defined.

(** ** [Clear] on the set *)

Lemma Clear_filter s :
  StronglySorted name_lt (map IM.Name s) ->
  MetricSet.Clear s = filter (named_in (map IM.Name s)) all_fresh.
Proof.
  intros Hs. pose proof (sorted_names_length s Hs) as Hlen.
  destruct s as [|[a|a|a] [|[b|b|b] [|[c|c|c] [|d s]]]];
    try (simpl in Hlen; lia); simpl in Hs; sorted_inv; reflexivity.
Qed.

(** X6.  [Clear] takes a set back to what its [AddMetric] calls alone
    would have built: every member is as freshly constructed, names and
    order are kept, and clearing twice is clearing once. *)
Theorem Clear_rebuilds s :
  MetricSet.reachable s ->
  MetricSet.Clear s = build (map IM.Name s)
  /\ map IM.Name (MetricSet.Clear s) = map IM.Name s
  /\ MetricSet.Clear (MetricSet.Clear s) = MetricSet.Clear s.
Proof.
  intros Hr. pose proof (reachable_sorted s Hr) as Hs.
  split; [|split].
  - rewrite build_filter. apply Clear_filter, Hs.
  - apply Clear_names.
  - unfold MetricSet.Clear. rewrite map_map. apply map_ext. intros []; reflexivity.
Qed.

Lemma Clear_rebuilds_witness :
  let scores := mkTensor2 1 2 (fun i _ => nth i [fratio 0 1; fratio 1 1] S754_nan) in
  let labels := fun _ : nat => fratio 0 1 in
  let s := snd (MetricSet.AddEval scores labels (build ["rmse"; "error"]%string)) in
  MetricSet.reachable s /\
  s = [Error (MetricError.mk dzero 2); RMSE (MetricRMSE.mk done 2)] /\
  MetricSet.Clear s = build ["error"; "rmse"]%string.
Proof.
  intros scores labels s.
  assert (Hr : MetricSet.reachable s) by (repeat constructor).
  split; [exact Hr|]. split; [vm_compute; reflexivity|].
  exact (proj1 (Clear_rebuilds s Hr)).
Defined.

(** ** [AddEval] on the set *)

Lemma IM_AddEval_done p l m :
  shape0 p = 1%nat -> fst (IM.AddEval p l m) = Done tt.
Proof.
  intros H1. destruct m as [s|s|s]; unfold IM.AddEval, IM.lift; cbn [fst].
  - rewrite RMSE_AddEval_ok by exact H1. reflexivity.
  - rewrite CorrSqr_AddEval_ok by exact H1. reflexivity.
  - rewrite Error_AddEval_ok by exact H1. reflexivity.
Qed.

Lemma IM_AddEval_abort p l m :
  shape0 p <> 1%nat ->
  IM.AddEval p l m = (Abort "RMSE can only accept shape[0]=1", m).
Proof.
  intros H. apply Nat.eqb_neq in H.
  destruct m as [s|s|s]; unfold IM.AddEval, IM.lift.
  - unfold MetricRMSE.AddEval, bind, Assert. rewrite H. reflexivity.
  - unfold MetricCorrSqr.AddEval, bind, Assert. rewrite H. reflexivity.
  - unfold MetricError.AddEval, bind, Assert. rewrite H. reflexivity.
Qed.

Lemma MetricSet_AddEval_done p l s :
  shape0 p = 1%nat ->
  MetricSet.AddEval p l s = (Done tt, map (fun m => snd (IM.AddEval p l m)) s).
Proof.
  intros H1. induction s as [|m s IH]; [reflexivity|].
  cbn [MetricSet.AddEval map]. pose proof (IM_AddEval_done p l m H1) as Hm.
  destruct (IM.AddEval p l m) as [[[]|msg] m']; [|discriminate Hm].
  rewrite IH. reflexivity.
Qed.

(** X7.  [MetricSet::AddEval] on a batch with one output per instance
    succeeds and hands the batch to every member, each updated by its own
    [AddEval]; with any other output axis the first member stops the run
    with the RMSE assertion message (whatever metric it is) and the whole
    set is left as it was; an empty set accepts every batch. *)
Theorem MetricSet_AddEval_outcome p l :
  (shape0 p = 1%nat -> forall s,
     MetricSet.AddEval p l s = (Done tt, map (fun m => snd (IM.AddEval p l m)) s))
  /\ (shape0 p <> 1%nat -> forall m s,
        MetricSet.AddEval p l (m :: s)
        = (Abort "RMSE can only accept shape[0]=1", m :: s))
  /\ MetricSet.AddEval p l [] = (Done tt, []).
Proof.
  split; [|split].
  - intros H1 s. apply MetricSet_AddEval_done, H1.
  - intros H m s. cbn [MetricSet.AddEval]. rewrite (IM_AddEval_abort p l m H). reflexivity.
  - reflexivity.
Qed.

Lemma MetricSet_AddEval_outcome_witness :
  let one := mkTensor2 1 2 (fun i _ => nth i [fratio 0 1; fratio 1 1] S754_nan) in
  let two := mkTensor2 2 1 (fun _ j => nth j [fratio 9 10; fratio 1 10] S754_nan) in
  let labels := fun _ : nat => fratio 0 1 in
  let s := build ["error"; "rmse"]%string in
  shape0 one = 1%nat /\ shape0 two <> 1%nat /\
  MetricSet.AddEval one labels s
  = (Done tt, [Error (MetricError.mk dzero 2); RMSE (MetricRMSE.mk done 2)]) /\
  MetricSet.AddEval two labels s = (Abort "RMSE can only accept shape[0]=1", s).
Proof.
  intros one two labels s.
  assert (H1 : shape0 one = 1%nat) by reflexivity.
  assert (H2 : shape0 two <> 1%nat) by (simpl; lia).
  split; [exact H1|]. split; [exact H2|]. split.
  - rewrite (proj1 (MetricSet_AddEval_outcome one labels) H1 s). vm_compute. reflexivity.
  - exact (proj1 (proj2 (MetricSet_AddEval_outcome two labels)) H2
             (Error MetricError.new) [RMSE MetricRMSE.new]).
Defined.

Lemma IM_AddEval_split m a b la lb :
  shape0 a = 1%nat -> shape0 b = 1%nat ->
  snd (IM.AddEval b lb (snd (IM.AddEval a la m)))
  = snd (IM.AddEval (concat_scores a b) (concat_labels (shape1 a) la lb) m).
Proof.
  intros Ha Hb.
  assert (Hs : shape0 a = shape0 b) by congruence.
  assert (Hc : shape0 (concat_scores a b) = 1%nat) by exact Ha.
  destruct m as [s|s|s]; unfold IM.AddEval, IM.lift; cbn [snd]; f_equal.
  - rewrite !RMSE_AddEval_ok by assumption. cbn [snd shape1 concat_scores].
    symmetry. apply (loop_concat MetricRMSE.body RMSE_body_local a b la lb s Hs).
  - rewrite !CorrSqr_AddEval_ok by assumption. cbn [snd shape1 concat_scores].
    symmetry. apply (loop_concat MetricCorrSqr.body CorrSqr_body_local a b la lb s Hs).
  - rewrite !Error_AddEval_ok by assumption. cbn [snd shape1 concat_scores].
    symmetry. apply (loop_concat MetricError.body Error_body_local a b la lb s Hs).
Qed.

(** X8.  For the whole set too, [AddEval] on a batch A followed by
    [AddEval] on a batch B with the same output axis gives the outcome
    and the members of one [AddEval] on A and B concatenated. *)
Theorem MetricSet_AddEval_split s a b la lb :
  shape0 a = shape0 b ->
  (MetricSet.AddEval a la ;; MetricSet.AddEval b lb) s
  = MetricSet.AddEval (concat_scores a b) (concat_labels (shape1 a) la lb) s.
Proof.
  intros Hs. unfold bind.
  destruct (Nat.eq_dec (shape0 a) 1) as [Ha|Ha].
  - assert (Hb : shape0 b = 1%nat) by congruence.
    assert (Hc : shape0 (concat_scores a b) = 1%nat) by exact Ha.
    rewrite !MetricSet_AddEval_done by assumption.
    rewrite map_map. f_equal. apply map_ext. intros m.
    apply IM_AddEval_split; assumption.
  - assert (Hc : shape0 (concat_scores a b) <> 1%nat) by exact Ha.
    destruct s as [|m s]; [reflexivity|].
    cbn [MetricSet.AddEval].
    rewrite (IM_AddEval_abort a la m Ha), (IM_AddEval_abort _ _ m Hc). reflexivity.
Qed.

Lemma MetricSet_AddEval_split_witness :
  let a := mkTensor2 1 2 (fun i _ => nth i [fratio 0 1; fratio 1 1] S754_nan) in
  let la := fun i => nth i [fratio 0 1; fratio 0 1] S754_nan in
  let b := mkTensor2 1 1 (fun _ _ => fratio 1 2) in
  let lb := fun _ : nat => fratio 1 1 in
  let s := build ["rmse"; "error"]%string in
  shape0 a = shape0 b /\
  (MetricSet.AddEval a la ;; MetricSet.AddEval b lb) s
  = MetricSet.AddEval (concat_scores a b) (concat_labels (shape1 a) la lb) s /\
  MetricSet.AddEval (concat_scores a b) (concat_labels (shape1 a) la lb) s
  = (Done tt, [Error (MetricError.mk done 3);
               RMSE (MetricRMSE.mk (S754_finite false 5629499534213120 (-52)) 3)]).
Proof.
  intros a la b lb s.
  assert (Hs : shape0 a = shape0 b) by reflexivity.
  split; [exact Hs|]. split.
  - exact (MetricSet_AddEval_split s a b la lb Hs).
  - vm_compute. reflexivity.
Defined.

(** ** What the assertion of the error metric entails *)

Lemma GetMaxIndex_single pred :
  shape1_0 pred = 1%nat -> MetricError.GetMaxIndex pred = 0.
Proof.
  intros H. unfold MetricError.GetMaxIndex, MetricError.GetMaxIndex_nat.
  rewrite H. reflexivity.
Qed.

Lemma Error_loop_labels p l st :
  shape0 p = 1%nat ->
  for_range 0 (shape1 p) (MetricError.body p l) st
  = fold_left (fun s i => count_instance 0 (float_to_int (l i)) s) (seq 0 (shape1 p)) st.
Proof.
  intros H1. rewrite for_range_fold. apply fold_left_pointwise. intros s i.
  rewrite MetricError_body_count, (GetMaxIndex_single (row p i) H1). reflexivity.
Qed.

(** X9.  On every batch it accepts the error metric predicts class 0
    for every instance: the scores are not looked at, and an instance
    counts as an error exactly when its label, cast to [int], is not 0.
    Two accepted batches with the same labels and instance count give the
    same statistics whatever their scores. *)
Theorem MetricError_accepted_ignores_scores p p' l st :
  shape0 p = 1%nat -> shape0 p' = 1%nat -> shape1 p = shape1 p' ->
  MetricError.AddEval p l st
  = (Done tt,
     fold_left (fun s i => count_instance 0 (float_to_int (l i)) s)
               (seq 0 (shape1 p)) st)
  /\ MetricError.AddEval p l st = MetricError.AddEval p' l st.
Proof.
  intros H1 H1' Hn.
  rewrite (Error_AddEval_ok p l st H1), (Error_AddEval_ok p' l st H1').
  rewrite (Error_loop_labels p l st H1), (Error_loop_labels p' l st H1'), Hn.
  split; reflexivity.
Qed.

Lemma MetricError_accepted_ignores_scores_witness :
  let p := mkTensor2 1 2 (fun i _ => nth i [fratio 1 10; fratio 9 10] S754_nan) in
  let p' := mkTensor2 1 2 (fun i _ => nth i [fratio 9 10; fratio 1 10] S754_nan) in
  let l := fun i => nth i [fratio 0 1; fratio 1 1] S754_nan in
  shape0 p = 1%nat /\ shape0 p' = 1%nat /\ shape1 p = shape1 p' /\
  MetricError.AddEval p l MetricError.new = MetricError.AddEval p' l MetricError.new /\
  MetricError.AddEval p l MetricError.new = (Done tt, MetricError.mk done 2).
Proof.
  intros p p' l.
  assert (H1 : shape0 p = 1%nat) by reflexivity.
  assert (H2 : shape0 p' = 1%nat) by reflexivity.
  assert (H3 : shape1 p = shape1 p') by reflexivity.
  split; [exact H1|]. split; [exact H2|]. split; [exact H3|]. split.
  - exact (proj2 (MetricError_accepted_ignores_scores p p' l MetricError.new H1 H2 H3)).
  - rewrite (proj1 (MetricError_accepted_ignores_scores p p' l MetricError.new H1 H2 H3)).
    vm_compute. reflexivity.
Defined.

(** ** A NaN in the data *)

Lemma dadd_nan_r x : dadd x S754_nan = S754_nan.
Proof. destruct x as [[]|[]| |]; reflexivity. Qed.

Lemma dsum_from_nan l : dsum_from S754_nan l = S754_nan.
Proof. unfold dsum_from. induction l as [|x l IH]; simpl; [reflexivity|exact IH]. Qed.

Lemma dsum_from_has_nan l : forall init,
  In S754_nan l -> dsum_from init l = S754_nan.
Proof.
  induction l as [|x l IH]; intros init Hin; [destruct Hin|].
  change (dsum_from init (x :: l)) with (dsum_from (dadd init x) l).
  destruct Hin as [->|Hin]; [rewrite dadd_nan_r; apply dsum_from_nan|apply IH, Hin].
Qed.

Lemma sqr_diff_nan s l :
  is_nan s || is_nan l = true -> sqr_diff (s, l) = S754_nan.
Proof.
  unfold sqr_diff. cbn [fst snd]. intros H. apply orb_true_iff in H.
  assert (Hsub : fsub s l = S754_nan).
  { destruct H as [H|H].
    - destruct s; try discriminate H. reflexivity.
    - destruct l; try discriminate H. destruct s as [[]|[]| |]; reflexivity. }
  rewrite Hsub. reflexivity.
Qed.

(** X10.  One NaN score or NaN label in an accepted batch turns
    [sum_err] of the RMSE metric into a NaN; a NaN [sum_err] survives
    every later [AddEval], accepted or not, and [Get] then returns a NaN
    whatever the count, until [Clear]. *)
Theorem RMSE_nan_is_absorbing :
  (forall p l st i,
     shape0 p = 1%nat -> (i < shape1 p)%nat ->
     is_nan (dptr2 p i 0%nat) || is_nan (l i) = true ->
     MetricRMSE.sum_err (snd (MetricRMSE.AddEval p l st)) = S754_nan)
  /\ (forall p l st,
        MetricRMSE.sum_err st = S754_nan ->
        MetricRMSE.sum_err (snd (MetricRMSE.AddEval p l st)) = S754_nan)
  /\ (forall st, MetricRMSE.sum_err st = S754_nan -> MetricRMSE.Get st = S754_nan)
  /\ (forall st, MetricRMSE.sum_err (MetricRMSE.Clear st) = dzero).
Proof.
  split; [|split; [|split]].
  - intros p l st i H1 Hi Hnan.
    rewrite (RMSE_AddEval_ok p l st H1). cbn [snd]. rewrite RMSE_loop_sum.
    apply dsum_from_has_nan. apply in_map_iff.
    exists (dptr2 p i 0%nat, l i). split; [apply sqr_diff_nan, Hnan|].
    unfold instances. cbn [fst snd]. apply in_map_iff.
    exists i. split; [reflexivity|]. apply in_seq. lia.
  - intros p l st Hnan.
    destruct (Nat.eq_dec (shape0 p) 1) as [H1|H1].
    + rewrite (RMSE_AddEval_ok p l st H1). cbn [snd].
      rewrite RMSE_loop_sum, Hnan. apply dsum_from_nan.
    + unfold MetricRMSE.AddEval, bind, Assert. apply Nat.eqb_neq in H1.
      rewrite H1. exact Hnan.
  - intros st Hnan. unfold MetricRMSE.Get. rewrite Hnan. reflexivity.
  - intros st. reflexivity.
Qed.

Lemma RMSE_nan_is_absorbing_witness :
  let p := mkTensor2 1 2 (fun i _ => nth i [fratio 1 2; S754_nan] S754_nan) in
  let q := mkTensor2 1 1 (fun _ _ => fratio 1 2) in
  let l := fun _ : nat => fratio 1 1 in
  let st := snd (MetricRMSE.AddEval p l MetricRMSE.new) in
  shape0 p = 1%nat /\ (1 < shape1 p)%nat /\
  is_nan (dptr2 p 1%nat 0%nat) || is_nan (l 1%nat) = true /\
  MetricRMSE.sum_err st = S754_nan /\
  MetricRMSE.sum_err (snd (MetricRMSE.AddEval q l st)) = S754_nan /\
  MetricRMSE.Get (snd (MetricRMSE.AddEval q l st)) = S754_nan.
Proof.
  intros p q l st.
  assert (H1 : shape0 p = 1%nat) by reflexivity.
  assert (Hi : (1 < shape1 p)%nat) by (simpl; lia).
  assert (Hn : is_nan (dptr2 p 1%nat 0%nat) || is_nan (l 1%nat) = true) by reflexivity.
  destruct RMSE_nan_is_absorbing as (Hin & Hkeep & Hget & _).
  pose proof (Hin p l MetricRMSE.new 1%nat H1 Hi Hn) as Hst.
  pose proof (Hkeep q l st Hst) as Hst'.
  split; [exact H1|]. split; [exact Hi|]. split; [exact Hn|].
  split; [exact Hst|]. split; [exact Hst'|]. apply Hget, Hst'.
Defined.

(** ** Reporting *)

Lemma append_inj_r a : forall x y, (a ++ x = a ++ y)%string -> x = y.
Proof.
  induction a as [|c a IH]; intros x y H; simpl in H; [exact H|].
  injection H as H. apply IH, H.
Qed.

Lemma append_inj_l (c : ascii) x : forall y,
  (x ++ String c "" = y ++ String c "")%string -> x = y.
Proof.
  induction x as [|d x IH]; intros [|e y] H; simpl in H.
  - reflexivity.
  - injection H as _ H. destruct y; discriminate H.
  - injection H as _ H. destruct x; discriminate H.
  - injection H as -> H. f_equal. apply IH, H.
Qed.

Lemma fragment_text_inj evname n n' :
  String "009" (evname ++ "-" ++ n ++ ":") = String "009" (evname ++ "-" ++ n' ++ ":") ->
  n = n'.
Proof.
  intros H. injection H as H.
  apply append_inj_r in H. apply (append_inj_r "-") in H.
  apply append_inj_l in H. exact H.
Qed.

Lemma NoDup_map_injective {A B} (f : A -> B) l :
  (forall x y, f x = f y -> x = y) -> NoDup l -> NoDup (map f l).
Proof.
  intros Hinj. induction 1 as [|x l Hx _ IH]; simpl; constructor; [|exact IH].
  intros Hin. apply in_map_iff in Hin. destruct Hin as (y & Hy & Hin).
  apply Hinj in Hy. subst y. contradiction.
Qed.

(** X11.  [Print] writes one fragment per member, at most three, in
    the strictly ascending name order of the set, and no two fragments
    carry the same text; right after [Clear] the number of every fragment
    is a NaN or an infinity (the division by the zero count is not
    guarded). *)
Theorem Print_fragments evname s :
  MetricSet.reachable s ->
  List.length (MetricSetOut.Print evname s) = List.length s
  /\ (List.length (MetricSetOut.Print evname s) <= 3)%nat
  /\ map MetricSetOut.text (MetricSetOut.Print evname s)
     = map (fun n => String "009" (evname ++ "-" ++ n ++ ":")) (map IM.Name s)
  /\ StronglySorted name_lt (map IM.Name s)
  /\ NoDup (map MetricSetOut.text (MetricSetOut.Print evname s))
  /\ Forall (fun f => nonfinite (MetricSetOut.value f) = true)
            (MetricSetOut.Print evname (MetricSet.Clear s)).
Proof.
  intros Hr. pose proof (reachable_sorted s Hr) as Hs.
  assert (Htext : map MetricSetOut.text (MetricSetOut.Print evname s)
                  = map (fun n => String "009" (evname ++ "-" ++ n ++ ":"))
                        (map IM.Name s)).
  { unfold MetricSetOut.Print. rewrite !map_map. reflexivity. }
  split; [apply length_map|]. split.
  { unfold MetricSetOut.Print. rewrite length_map. apply sorted_names_length, Hs. }
  split; [exact Htext|]. split; [exact Hs|]. split.
  - rewrite Htext. apply NoDup_map_injective.
    + intros n n'. apply fragment_text_inj.
    + apply name_lt_NoDup, Hs.
  - unfold MetricSetOut.Print, MetricSet.Clear. rewrite map_map.
    apply Forall_forall. intros f Hf. apply in_map_iff in Hf.
    destruct Hf as (m & <- & _). destruct m; reflexivity.
Qed.

Lemma Print_fragments_witness :
  let s := build ["rmse"; "error"]%string in
  MetricSet.reachable s /\
  map MetricSetOut.text (MetricSetOut.Print "test" s)
  = [String "009" "test-error:"; String "009" "test-rmse:"] /\
  NoDup (map MetricSetOut.text (MetricSetOut.Print "test" s)) /\
  map MetricSetOut.value (MetricSetOut.Print "test" (MetricSet.Clear s))
  = [S754_nan; S754_nan].
Proof.
  intros s.
  assert (Hr : MetricSet.reachable s) by (repeat constructor).
  destruct (Print_fragments "test" s Hr) as (_ & _ & _ & _ & Hnd & _).
  split; [exact Hr|]. split; [reflexivity|]. split; [exact Hnd|reflexivity].
Defined.

(** ** Signs of the accumulated sums *)

Lemma round_aux_not_negative prec emax mx ex lx :
  not_negative (binary_round_aux prec emax false mx ex lx) = true.
Proof.
  unfold binary_round_aux.
  destruct (shr_fexp prec emax mx ex lx) as [mrs' e'].
  destruct (shr_fexp prec emax _ e' loc_Exact) as [mrs'' e''].
  destruct (shr_m mrs''); [reflexivity| |reflexivity].
  destruct (Z.leb e'' (emax - prec)); reflexivity.
Qed.

Lemma round_not_negative prec emax m e :
  not_negative (binary_round prec emax false m e) = true.
Proof.
  unfold binary_round. destruct (shl_align m e _) as [mz ez].
  apply round_aux_not_negative.
Qed.

Lemma sqr_not_negative x : not_negative (fmul x x) = true.
Proof.
  destruct x as [s|s| |s m e]; simpl; try reflexivity.
  - destruct s; reflexivity.
  - destruct s; apply round_aux_not_negative.
Qed.

Lemma float_to_double_not_negative x :
  not_negative x = true -> not_negative (float_to_double x) = true.
Proof.
  destruct x as [s|s| |s m e]; simpl; intros H; try exact H.
  destruct s; [discriminate H|]. apply round_not_negative.
Qed.

Lemma dadd_not_negative x y :
  not_negative x = true -> not_negative y = true -> not_negative (dadd x y) = true.
Proof.
  destruct x as [sx|sx| |sx mx ex], y as [sy|sy| |sy my ey]; simpl;
    intros Hx Hy; try reflexivity; try assumption.
  - destruct sx, sy; reflexivity.
  - destruct sx, sy; try discriminate; reflexivity.
  - destruct sx, sy; try discriminate.
    unfold dadd, SFadd. cbn [cond_Zopp Z.add binary_normalize].
    apply round_not_negative.
Qed.

Lemma dsum_from_not_negative l : forall init,
  not_negative init = true -> Forall (fun x => not_negative x = true) l ->
  not_negative (dsum_from init l) = true.
Proof.
  induction l as [|x l IH]; intros init H0 Hall; [exact H0|].
  inversion Hall as [|? ? Hx Hl]; subst.
  change (dsum_from init (x :: l)) with (dsum_from (dadd init x) l).
  apply IH; [apply dadd_not_negative; assumption|exact Hl].
Qed.

Lemma calls_invariant {St} (f : Tensor2 -> Labels -> M St unit) (P : St -> Prop) :
  (forall p l st, P st -> P (snd (f p l st))) ->
  forall bs st, P st -> P (snd (calls f bs st)).
Proof.
  intros Hstep. induction bs as [|[p l] bs IH]; intros st H0; [exact H0|].
  cbn [calls fst snd]. unfold bind.
  pose proof (Hstep p l st H0) as H1.
  destruct (f p l st) as [[[]|msg] st']; cbn [snd] in *; [apply IH, H1|exact H1].
Qed.

Lemma RMSE_step_not_negative p l st :
  not_negative (MetricRMSE.sum_err st) = true ->
  not_negative (MetricRMSE.sum_err (snd (MetricRMSE.AddEval p l st))) = true.
Proof.
  intros H0. destruct (Nat.eq_dec (shape0 p) 1) as [H1|H1].
  - rewrite (RMSE_AddEval_ok p l st H1). cbn [snd]. rewrite RMSE_loop_sum.
    apply dsum_from_not_negative; [exact H0|].
    apply Forall_forall. intros x Hx. apply in_map_iff in Hx.
    destruct Hx as (q & <- & _). unfold sqr_diff.
    apply float_to_double_not_negative, sqr_not_negative.
  - unfold MetricRMSE.AddEval, bind, Assert. apply Nat.eqb_neq in H1.
    rewrite H1. exact H0.
Qed.

Lemma CorrSqr_step_not_negative p l st :
  not_negative (MetricCorrSqr.sum_xsqr st) = true
  /\ not_negative (MetricCorrSqr.sum_ysqr st) = true ->
  not_negative (MetricCorrSqr.sum_xsqr (snd (MetricCorrSqr.AddEval p l st))) = true
  /\ not_negative (MetricCorrSqr.sum_ysqr (snd (MetricCorrSqr.AddEval p l st))) = true.
Proof.
  intros [Hx Hy]. destruct (Nat.eq_dec (shape0 p) 1) as [H1|H1].
  - rewrite (CorrSqr_AddEval_ok p l st H1). cbn [snd]. rewrite for_range_fold.
    split.
    + rewrite (fold_sum_field (MetricCorrSqr.body p l) MetricCorrSqr.sum_xsqr
                 (fun i => float_to_double
                             (MetricCorrSqr_sqr (fsub (dptr1 (row p i) 0%nat) fhalf))))
        by (intros i s; reflexivity).
      apply dsum_from_not_negative; [exact Hx|].
      apply Forall_forall. intros x Hin. apply in_map_iff in Hin.
      destruct Hin as (i & <- & _).
      apply float_to_double_not_negative, sqr_not_negative.
    + rewrite (fold_sum_field (MetricCorrSqr.body p l) MetricCorrSqr.sum_ysqr
                 (fun i => float_to_double (MetricCorrSqr_sqr (fsub (l i) fhalf))))
        by (intros i s; reflexivity).
      apply dsum_from_not_negative; [exact Hy|].
      apply Forall_forall. intros x Hin. apply in_map_iff in Hin.
      destruct Hin as (i & <- & _).
      apply float_to_double_not_negative, sqr_not_negative.
  - unfold MetricCorrSqr.AddEval, bind, Assert. apply Nat.eqb_neq in H1.
    rewrite H1. split; assumption.
Qed.

Lemma Error_step_not_negative p l st :
  not_negative (MetricError.sum_err st) = true ->
  not_negative (MetricError.sum_err (snd (MetricError.AddEval p l st))) = true.
Proof.
  intros H0. destruct (Nat.eq_dec (shape0 p) 1) as [H1|H1].
  - rewrite (Error_AddEval_ok p l st H1). cbn [snd]. rewrite for_range_fold.
    rewrite (fold_sum_field (MetricError.body p l) MetricError.sum_err
               (fun i => int_to_double
                           (Z.b2z (negb (MetricError.GetMaxIndex (row p i)
                                         =? float_to_int (l i))))))
      by (intros i s; reflexivity).
    apply dsum_from_not_negative; [exact H0|].
    apply Forall_forall. intros x Hin. apply in_map_iff in Hin.
    destruct Hin as (i & <- & _).
    destruct (MetricError.GetMaxIndex (row p i) =? float_to_int (l i)); reflexivity.
  - unfold MetricError.AddEval, bind, Assert. apply Nat.eqb_neq in H1.
    rewrite H1. exact H0.
Qed.

(** X12.  The sums of squares never go negative: whatever batches a
    freshly constructed metric is given, accepted or refused, [sum_err]
    of the RMSE and of the error metric and [sum_xsqr] and [sum_ysqr] of
    the squared correlation have a clear sign bit, or are zero or NaN.
    The helper [sqr] never yields a negative number. *)
Theorem sums_never_negative (bs : list Batch) :
  not_negative (MetricRMSE.sum_err (snd (calls MetricRMSE.AddEval bs MetricRMSE.new)))
  = true
  /\ not_negative
       (MetricCorrSqr.sum_xsqr (snd (calls MetricCorrSqr.AddEval bs MetricCorrSqr.new)))
     = true
  /\ not_negative
       (MetricCorrSqr.sum_ysqr (snd (calls MetricCorrSqr.AddEval bs MetricCorrSqr.new)))
     = true
  /\ not_negative (MetricError.sum_err (snd (calls MetricError.AddEval bs MetricError.new)))
     = true
  /\ forall x, not_negative (MetricCorrSqr_sqr x) = true.
Proof.
  split; [|split; [|split; [|split]]].
  - apply (calls_invariant MetricRMSE.AddEval
             (fun st => not_negative (MetricRMSE.sum_err st) = true));
      [apply RMSE_step_not_negative|reflexivity].
  - apply (calls_invariant MetricCorrSqr.AddEval
             (fun st => not_negative (MetricCorrSqr.sum_xsqr st) = true
                        /\ not_negative (MetricCorrSqr.sum_ysqr st) = true));
      [apply CorrSqr_step_not_negative|split; reflexivity].
  - apply (calls_invariant MetricCorrSqr.AddEval
             (fun st => not_negative (MetricCorrSqr.sum_xsqr st) = true
                        /\ not_negative (MetricCorrSqr.sum_ysqr st) = true));
      [apply CorrSqr_step_not_negative|split; reflexivity].
  - apply (calls_invariant MetricError.AddEval
             (fun st => not_negative (MetricError.sum_err st) = true));
      [apply Error_step_not_negative|reflexivity].
  - apply sqr_not_negative.
Qed.
